(** * PokerStatsChecker: the classification and aggregation engine of App.tsx

    A shallow embedding of the pure core of [src/App.tsx]: [parsePercent],
    [classify], the [computed] / [sectionStats] / [totals] / [visibleSections]
    derivations and [rowFilterApply], together with the properties the
    specification states about them.

    Conventions of the embedding.
    - A JavaScript [number] is a binary64 value.  It is modelled by the
      inductive type [number]: a finite value carries the rational it denotes,
      and every arithmetic result is rounded to the nearest binary64 value
      (ties to even) by [round64].  The two zeros are identified; nothing in
      the core divides by a zero or otherwise tells them apart.
    - Integer quantities that the code only counts with (array lengths and
      sums and differences of them) are modelled by [Z]; they are exact in
      binary64 below 2^53.
    - A JavaScript string is modelled by [string], whose characters stand for
      the code units 0..255; white space and letter case are those of this
      range.
    - An object used as a dictionary ([Row], [targetsByPosition], the [computed]
      map) is a [gmap] over the keys the object itself holds; a missing key
      reads as [None], which is JavaScript's [undefined].
    - A read [obj[key]] also finds what [obj] inherits from [Object.prototype].
      The one read of the core whose key comes from the raw rows is
      [section.targetsByPosition[position]]; it is modelled by [getTarget],
      which looks among the own keys first and among the members of
      [Object.prototype] next.  The keys of the other reads are fixed texts
      ("Position", "Hands"), which [Object.prototype] does not have, or come
      from the catalog: a column, or a section id, which is read only in
      maps that hold every id of the catalog as a key of their own.  A cell
      read at a column that only [Object.prototype] knows is a function or an
      object, whose text is no number: [parsePercent] answers absent for it as
      for a missing cell.
    - The catalog [SECTIONS] is imported from a module that is not part of the
      sources at hand, and [localeCompare] is the collation of the host; the
      derivations take both as parameters. *)

From Stdlib Require Import ZArith QArith String Ascii List Lia OrderedTypeEx.
From stdpp Require Import gmap strings list sorting.

Local Open Scope Z_scope.

(** ** JavaScript numbers *)

Inductive number : Type :=
  | Fin (q : Q)
  | PosInf
  | NegInf
  | NaN.

(** [Number.isFinite] *)
Definition isFinite (n : number) : bool :=
  match n with Fin _ => true | _ => false end.

(** Nearest integer to [n / d], ties to even, for [0 <= n] and [0 < d]. *)
Definition nearest_even (n d : Z) : Z :=
  let q := n / d in
  match (2 * (n mod d)) ?= d with
  | Lt => q
  | Gt => q + 1
  | Eq => if Z.even q then q else q + 1
  end.

(** [binade n d] is the integer [e] with [2^e <= n / d < 2^(e+1)],
    for [0 < n] and [0 < d]. *)
Definition binade (n d : Z) : Z :=
  let e := Z.log2 n - Z.log2 d in
  if (if 0 <=? e then n <? d * 2 ^ e else n * 2 ^ (- e) <? d)
  then e - 1 else e.

(** Rounding of the rational [q] to binary64, round-to-nearest, ties to even:
    53 significant bits, least exponent of the unit in the last place -1074,
    overflow to an infinity from 2^1024 on. *)
Definition round64 (q : Q) : number :=
  let n := Qnum q in
  let d := Z.pos (Qden q) in
  if n =? 0 then Fin 0 else
  let a := Z.abs n in
  let p := Z.max (binade a d - 52) (-1074) in
  let m := if 0 <=? p then nearest_even a (d * 2 ^ p)
           else nearest_even (a * 2 ^ (- p)) d in
  if (0 <=? p) && (2 ^ 1024 <=? m * 2 ^ p)
  then (if 0 <? n then PosInf else NegInf)
  else
    let s := Z.sgn n * m in
    Fin (if 0 <=? p then (s * 2 ^ p) # 1
         else Qred (s # Z.to_pos (2 ^ (- p)))).

Definition of_Z (z : Z) : number := round64 (inject_Z z).

(** The relational operators [<=] and [>=] on numbers: every comparison with
    [NaN] is false. *)
Definition num_le (x y : number) : bool :=
  match x, y with
  | NaN, _ | _, NaN => false
  | NegInf, _ => true
  | _, PosInf => true
  | Fin a, Fin b => Qle_bool a b
  | _, _ => false
  end.

Definition num_ge (x y : number) : bool := num_le y x.

Definition is_zero (x : number) : bool :=
  match x with Fin q => Qeq_bool q 0 | _ => false end.

Definition is_neg (x : number) : bool :=
  match x with Fin q => negb (Qle_bool 0 q) | NegInf => true | _ => false end.

Definition signed_inf (negative : bool) : number :=
  if negative then NegInf else PosInf.

(** The operator [/].  A zero divisor is read as +0. *)
Definition num_div (x y : number) : number :=
  match x, y with
  | NaN, _ | _, NaN => NaN
  | Fin a, Fin b =>
      if Qeq_bool b 0
      then (if Qeq_bool a 0 then NaN else signed_inf (is_neg x))
      else round64 (a / b)
  | Fin _, _ => Fin 0
  | _, Fin _ => signed_inf (xorb (is_neg x) (is_neg y))
  | _, _ => NaN
  end.

(** The operator [*]. *)
Definition num_mul (x y : number) : number :=
  match x, y with
  | NaN, _ | _, NaN => NaN
  | Fin a, Fin b => round64 (a * b)
  | _, _ =>
      if is_zero x || is_zero y then NaN
      else signed_inf (xorb (is_neg x) (is_neg y))
  end.

(** ** JavaScript strings *)

Local Open Scope string_scope.
Local Open Scope Z_scope.

Definition code (c : ascii) : Z := Z.of_N (N_of_ascii c).

(** White space and line terminators among the code units 0..255: TAB, LF,
    VT, FF, CR, SP and NBSP. *)
Definition isWhiteSpace (c : ascii) : bool :=
  let k := code c in
  ((9 <=? k) && (k <=? 13)) || (k =? 32) || (k =? 160).

Fixpoint trimStart (s : string) : string :=
  match s with
  | String c s' => if isWhiteSpace c then trimStart s' else s
  | EmptyString => EmptyString
  end.

Fixpoint trimEnd (s : string) : string :=
  match s with
  | String c s' =>
      match trimEnd s' with
      | EmptyString => if isWhiteSpace c then EmptyString else String c EmptyString
      | t => String c t
      end
  | EmptyString => EmptyString
  end.

(** [String.prototype.trim] *)
Definition trim (s : string) : string := trimEnd (trimStart s).

Definition lowerChar (c : ascii) : ascii :=
  let k := code c in
  if ((65 <=? k) && (k <=? 90))
     || ((192 <=? k) && (k <=? 222) && negb (k =? 215))
  then ascii_of_N (Z.to_N (k + 32)) else c.

(** [String.prototype.toLowerCase] *)
Fixpoint toLowerCase (s : string) : string :=
  match s with
  | String c s' => String (lowerChar c) (toLowerCase s')
  | EmptyString => EmptyString
  end.

(** [s.replace(c, "")] for a one-character pattern: the first occurrence of
    [c] is removed, later ones stay. *)
Fixpoint removeFirst (c : ascii) (s : string) : string :=
  match s with
  | String c' s' => if Ascii.eqb c c' then s' else String c' (removeFirst c s')
  | EmptyString => EmptyString
  end.

Fixpoint startsWith (p s : string) : bool :=
  match p, s with
  | EmptyString, _ => true
  | String a p', String b s' => Ascii.eqb a b && startsWith p' s'
  | String _ _, EmptyString => false
  end.

(** [s.includes(q)] *)
Fixpoint includes (s q : string) : bool :=
  startsWith q s ||
  match s with
  | String _ s' => includes s' q
  | EmptyString => false
  end.

(** ** String to number conversion: [Number(s)] on a string *)

(** Value of a digit in the given radix, if the character is one. *)
Definition digitValue (radix : Z) (c : ascii) : option Z :=
  let k := code c in
  let v := if (48 <=? k) && (k <=? 57) then k - 48
           else if (97 <=? k) && (k <=? 102) then k - 87
           else if (65 <=? k) && (k <=? 70) then k - 55
           else radix in
  if v <? radix then Some v else None.

(** Longest prefix of digits: its value read in [radix] on top of [acc], the
    number of digits, and what follows. *)
Fixpoint digits (radix : Z) (acc : Z) (count : Z) (s : string) : Z * Z * string :=
  match s with
  | String c s' =>
      match digitValue radix c with
      | Some v => digits radix (acc * radix + v) (count + 1) s'
      | None => (acc, count, s)
      end
  | EmptyString => (acc, count, s)
  end.

(** ExponentPart, optional: [e] or [E], an optional sign, at least one
    digit, and nothing after it.  [None] when the text is something else. *)
Definition exponentPart (s : string) : option Z :=
  match s with
  | EmptyString => Some 0
  | String c s' =>
      if (code c =? 101) || (code c =? 69) then
        let '(negative, body) :=
          match s' with
          | String "-" t => (true, t)
          | String "+" t => (false, t)
          | _ => (false, s')
          end in
        match digits 10 0 0 body with
        | (v, count, EmptyString) =>
            if 0 <? count then Some (if negative then - v else v) else None
        | _ => None
        end
      else None
  end.

(** Mathematical value of [m * 10^e]. *)
Definition scale10 (m e : Z) : Q :=
  if 0 <=? e then (m * 10 ^ e) # 1 else m # Z.to_pos (10 ^ (- e)).

(** StrUnsignedDecimalLiteral without [Infinity]: digits with an optional
    fraction, or a fraction alone, then an optional exponent.  The result is
    the exact mathematical value of the literal. *)
Definition unsignedDecimal (s : string) : option Q :=
  let '(ip, icount, r1) := digits 10 0 0 s in
  let '(m, fcount, r2) :=
    match r1 with
    | String "." t => digits 10 ip 0 t
    | _ => (ip, 0, r1)
    end in
  if 0 <? icount + fcount then
    match exponentPart r2 with
    | Some e => Some (scale10 m (e - fcount))
    | None => None
    end
  else None.

(** StrDecimalLiteral: an optional sign before [Infinity] or an unsigned
    decimal literal. *)
Definition strDecimalLiteral (s : string) : option number :=
  let '(negative, body) :=
    match s with
    | String "-" t => (true, t)
    | String "+" t => (false, t)
    | _ => (false, s)
    end in
  if String.eqb body "Infinity" then Some (signed_inf negative)
  else
    match unsignedDecimal body with
    | Some q => Some (round64 (if negative then - q else q))
    | None => None
    end.

(** NonDecimalIntegerLiteral: [0x], [0o] or [0b] (either case) and at least
    one digit of that radix; it takes no sign. *)
Definition nonDecimalIntegerLiteral (s : string) : option number :=
  match s with
  | String "0" (String c body) =>
      let k := code c in
      let radix := if (k =? 120) || (k =? 88) then 16
                   else if (k =? 111) || (k =? 79) then 8
                   else if (k =? 98) || (k =? 66) then 2
                   else 0 in
      match digits radix 0 0 body with
      | (v, count, EmptyString) =>
          if 0 <? count then Some (of_Z v) else None
      | _ => None
      end
  | _ => None
  end.

(** [Number(s)]: white space around the text is dropped; empty text is 0; a
    decimal or non-decimal literal is its value, rounded; anything else is
    [NaN]. *)
Definition Number (s : string) : number :=
  let t := trim s in
  if String.eqb t "" then Fin 0
  else
    match strDecimalLiteral t with
    | Some n => n
    | None =>
        match nonDecimalIntegerLiteral t with
        | Some n => n
        | None => NaN
        end
    end.

(** ** The value extractor *)

(** [parsePercent(value)].  The argument is a cell of a row: a string, or
    [None] for [undefined] / [null]. *)
Definition parsePercent (value : option string) : option number :=
  match value with
  | None => None
  | Some v =>
      let s := trim v in
      if String.eqb s "" || String.eqb s "-" || String.eqb (toLowerCase s) "na"
      then None
      else
        let cleaned := removeFirst "%" s in
        let n := Number cleaned in
        if isFinite n then Some n else None
  end.

(** ** Data model *)

(** [type ResultType = "LOW" | "GOOD" | "HIGH"] *)
Inductive ResultType : Type := LOW | GOOD | HIGH.

#[global] Instance ResultType_eq_dec : EqDecision ResultType.
Proof. solve_decision. Defined.

(** A target range [{ min: number; max: number }], as the comparisons of
    [classify] read it: [min] and [max] are the numbers that [range.min] and
    [range.max] stand for in [value <= range.min] and [value >= range.max].
    A property that the object does not have reads [undefined], which a
    comparison converts to [NaN]. *)
Module Range.
Record t : Type := mk { min : number; max : number }.
End Range.

(** [type Row = Record<string, string>] *)
Abbreviation Row := (gmap string string).

(** [type ComputedRow] *)
Module ComputedRow.
Record t : Type := mk {
  position : string;
  hands : option string;
  value : number;
  target : Range.t;
  result : ResultType;
  recAction : string;
}.
End ComputedRow.

(** An entry of the catalog [SECTIONS], with the fields the code reads. *)
Module SectionDef.
Record t : Type := mk {
  id : string;
  title : string;
  column : string;
  targetsByPosition : gmap string Range.t;
  lowAction : string;
  goodAction : string;
  highAction : string;
}.
End SectionDef.

(** An element of [sectionStats]. *)
Module Stat.
Record t : Type := mk {
  section : SectionDef.t;
  rows : list ComputedRow.t;
  good : Z;
  bad : Z;
  pctGood : number;
}.
End Stat.

(** The object [totals]. *)
Module Totals.
Record t : Type := mk {
  totalRows : Z;
  totalGood : Z;
  totalBad : Z;
  pctGood : number;
  sectionsWithData : Z;
  sectionsWithBad : Z;
  totalStats : Z;
  goodStats : Z;
  badStats : Z;
  pctGoodStats : number;
}.
End Totals.

(** The selectors ["ALL" | "GOOD" | "BAD"], ["ALL" | "WITH_BAD" | "WITH_DATA"]
    and ["MOST_BAD" | "A_Z"] of the view state. *)
Inductive RowFilter : Type := F_ALL | F_GOOD | F_BAD.
Inductive SectionScope : Type := S_ALL | WITH_BAD | WITH_DATA.
Inductive SortMode : Type := MOST_BAD | A_Z.

(** [array.length] *)
Definition len {A : Type} (l : list A) : Z := Z.of_nat (length l).

(** ** The row classifier *)

(** [classify(value, range)] *)
Definition classify (value : number) (range : Range.t) : ResultType :=
  if num_le value (Range.min range) then LOW
  else if num_ge value (Range.max range) then HIGH
  else GOOD.

(** The names of the properties of [Object.prototype], which every object
    literal inherits: [Object.getOwnPropertyNames(Object.prototype)]. *)
Definition objectPrototypeMembers : list string :=
  ["constructor"; "__defineGetter__"; "__defineSetter__"; "hasOwnProperty";
   "__lookupGetter__"; "__lookupSetter__"; "isPrototypeOf";
   "propertyIsEnumerable"; "toString"; "valueOf"; "__proto__";
   "toLocaleString"].

(** What a read finds under one of these names: a function, or for
    ["__proto__"] the object [Object.prototype] itself.  Each is an object,
    hence truthy, and none has a property [min] or [max]: both reads give
    [undefined]. *)
Definition inheritedMember : Range.t := Range.mk NaN NaN.

(** [targets[position]] for the object literal [targets]: the own entry of
    the key when there is one, else the member that the object inherits from
    [Object.prototype] under this name, else [undefined]. *)
Definition getTarget (targets : gmap string Range.t) (position : string)
  : option Range.t :=
  match targets !! position with
  | Some range => Some range
  | None =>
      if bool_decide (position ∈ objectPrototypeMembers)
      then Some inheritedMember
      else None
  end.

(** The body of the inner loop of [computed] for one section and one raw row:
    [None] is a [continue], [Some] is the row that is pushed.  The guard
    [if (!target) continue] lets every object pass, a range of the section as
    well as an inherited member. *)
Definition computedRow (section : SectionDef.t) (r : Row) : option ComputedRow.t :=
  let position := trim (default "" (r !! "Position")) in
  if String.eqb position "" then None else
  match getTarget (SectionDef.targetsByPosition section) position with
  | None => None
  | Some target =>
      match parsePercent (r !! SectionDef.column section) with
      | None => None
      | Some value =>
          let result := classify value target in
          let recAction :=
            match result with
            | GOOD => SectionDef.goodAction section
            | LOW => SectionDef.lowAction section
            | HIGH => SectionDef.highAction section
            end in
          Some (ComputedRow.mk position (r !! "Hands") value target result recAction)
      end
  end.

(** The inner loop: [rows] starts empty and grows by [push] in row order. *)
Definition sectionRows (section : SectionDef.t) (rawRows : list Row) : list ComputedRow.t :=
  foldl (fun rows r =>
           match computedRow section r with
           | Some cr => (rows ++ [cr])%list
           | None => rows
           end) [] rawRows.

(** [computed]: the outer loop stores each section's rows under its id. *)
Definition computed (SECTIONS : list SectionDef.t) (rawRows : list Row)
  : gmap string (list ComputedRow.t) :=
  foldl (fun map section =>
           <[SectionDef.id section := sectionRows section rawRows]> map)
        ∅ SECTIONS.

(** ** The aggregator *)

(** [(part / whole) * 100] behind the guard [whole ? ... : 0]. *)
Definition percentOf (part whole : Z) : number :=
  if whole =? 0 then Fin 0
  else num_mul (num_div (of_Z part) (of_Z whole)) (Fin 100).

Definition isGood (r : ComputedRow.t) : Prop := ComputedRow.result r = GOOD.

(** The callback of [SECTIONS.map] in [sectionStats], given the rows read
    from [computed]. *)
Definition sectionStat (s : SectionDef.t) (rows : list ComputedRow.t) : Stat.t :=
  let good := len (filter isGood rows) in
  let bad := len rows - good in
  let pctGood := percentOf good (len rows) in
  Stat.mk s rows good bad pctGood.

(** [sectionStats]; [computed[s.id] ?? []] reads a missing entry as []. *)
Definition sectionStats (SECTIONS : list SectionDef.t)
    (computed : gmap string (list ComputedRow.t)) : list Stat.t :=
  map (fun s => sectionStat s (default [] (computed !! SectionDef.id s))) SECTIONS.

Definition hasData (x : Stat.t) : Prop := len (Stat.rows x) > 0.
Definition hasBad (x : Stat.t) : Prop := Stat.bad x > 0.

(** [totals] *)
Definition totals (sectionStats : list Stat.t) : Totals.t :=
  let totalRows := foldl (fun acc x => acc + len (Stat.rows x)) 0 sectionStats in
  let totalGood := foldl (fun acc x => acc + Stat.good x) 0 sectionStats in
  let totalBad := totalRows - totalGood in
  let pctGood := percentOf totalGood totalRows in
  let sectionsWithData := len (filter hasData sectionStats) in
  let sectionsWithBad := len (filter hasBad sectionStats) in
  let withData := filter hasData sectionStats in
  let goodStats := 0 in
  let totalStats := len withData in
  let badStats := totalStats - goodStats in
  let pctGoodStats := percentOf goodStats totalStats in
  Totals.mk totalRows totalGood totalBad pctGood sectionsWithData
            sectionsWithBad totalStats goodStats badStats pctGoodStats.

(** ** The view selector *)

(** [Array.prototype.sort(cmp)].  The language fixes its result for a
    consistent comparator: the sort is stable, so the outcome is the one
    arrangement that is ordered by [cmp] and keeps elements that compare equal
    in their original order.  An insertion sort that places an element before
    the first later element it does not exceed computes that arrangement
    (lemma [sort_unique] below). *)
Fixpoint sortInsert {A : Type} (cmp : A -> A -> Z) (x : A) (l : list A) : list A :=
  match l with
  | [] => [x]
  | y :: l' => if cmp x y <=? 0 then x :: l else y :: sortInsert cmp x l'
  end.

Definition sort {A : Type} (cmp : A -> A -> Z) (l : list A) : list A :=
  foldr (sortInsert cmp) [] l.

(** The comparator of the "MOST_BAD" mode.  [localeCompare] is the host's
    collation of two titles: negative, zero or positive. *)
Definition compareMostBad (localeCompare : string -> string -> Z) (a b : Stat.t) : Z :=
  if negb (Stat.bad b =? Stat.bad a) then Stat.bad b - Stat.bad a
  else if negb (len (Stat.rows b) =? len (Stat.rows a))
       then len (Stat.rows b) - len (Stat.rows a)
       else localeCompare (SectionDef.title (Stat.section a))
                          (SectionDef.title (Stat.section b)).

(** The comparator of the "A_Z" mode. *)
Definition compareTitle (localeCompare : string -> string -> Z) (a b : Stat.t) : Z :=
  localeCompare (SectionDef.title (Stat.section a)) (SectionDef.title (Stat.section b)).

(** The predicate of [sectionStats.filter] in [visibleSections]; [q] is the
    trimmed, lower-cased query. *)
Definition sectionVisible (sectionScope : SectionScope) (q : string) (x : Stat.t) : bool :=
  if (match sectionScope with WITH_BAD => true | _ => false end) && (Stat.bad x =? 0)
  then false
  else if (match sectionScope with WITH_DATA => true | _ => false end)
          && (len (Stat.rows x) =? 0)
  then false
  else if String.eqb q "" then true
  else includes (toLowerCase (SectionDef.title (Stat.section x))) q
       || includes (toLowerCase (SectionDef.column (Stat.section x))) q
       || includes (toLowerCase (SectionDef.id (Stat.section x))) q.

(** [visibleSections] *)
Definition visibleSections (localeCompare : string -> string -> Z)
    (sectionStats : list Stat.t) (sectionScope : SectionScope)
    (query : string) (sortMode : SortMode) : list Stat.t :=
  let q := toLowerCase (trim query) in
  let list := List.filter (sectionVisible sectionScope q) sectionStats in
  match sortMode with
  | MOST_BAD => sort (compareMostBad localeCompare) list
  | A_Z => sort (compareTitle localeCompare) list
  end.

(** The effective filter of [rowFilterApply]. *)
Definition effectiveFilter (globalRowFilter localFilter : RowFilter) : RowFilter :=
  match globalRowFilter with F_ALL => localFilter | _ => globalRowFilter end.

(** [rowFilterApply(rows, localFilter)]; the state [globalRowFilter] it closes
    over is its first argument here. *)
Definition rowFilterApply (globalRowFilter : RowFilter)
    (rows : list ComputedRow.t) (localFilter : RowFilter) : list ComputedRow.t :=
  let effective := effectiveFilter globalRowFilter localFilter in
  match effective with
  | F_ALL => rows
  | F_GOOD => filter isGood rows
  | F_BAD => filter (fun r => ~ isGood r) rows
  end.

(** * Vocabulary of the properties *)

(** ** Orders and magnitudes of numbers *)

(** The order of the extended rationals that the numbers other than [NaN]
    denote; [NaN] is related to nothing. *)
Definition le (x y : number) : Prop :=
  match x, y with
  | NaN, _ | _, NaN => False
  | NegInf, _ => True
  | _, PosInf => True
  | Fin a, Fin b => (a <= b)%Q
  | _, _ => False
  end.

Definition lt (x y : number) : Prop := le x y /\ ~ le y x.

(** Numerically equal. *)
Definition same (x y : number) : Prop := le x y /\ le y x.

Declare Scope number_scope.
Delimit Scope number_scope with num.
Infix "<=" := le : number_scope.
Infix "<" := lt : number_scope.

(** [|q| <= 2^k] on the fraction's numerator and denominator. *)
Definition magnitude_le (k : Z) (q : Q) : Prop :=
  Z.abs (Qnum q) <= Z.pos (Qden q) * 2 ^ k.

(** ** Counting rows *)

(** Number of rows with a given outcome. *)
Fixpoint occurrences (o : ResultType) (rows : list ComputedRow.t) : Z :=
  match rows with
  | [] => 0
  | r :: rows' =>
      (if decide (ComputedRow.result r = o) then 1 else 0) + occurrences o rows'
  end.

(** Sum of a list of integers. *)
Definition sumZ (l : list Z) : Z := foldr Z.add 0 l.

(** A row outside the range. *)
Definition isBad (r : ComputedRow.t) : Prop := ComputedRow.result r <> GOOD.

(** What each selector retains. *)
Definition retains (f : RowFilter) (r : ComputedRow.t) : Prop :=
  match f with
  | F_ALL => True
  | F_GOOD => ComputedRow.result r = GOOD
  | F_BAD => ComputedRow.result r <> GOOD
  end.

#[global] Instance retains_dec f r : Decision (retains f r).
Proof. destruct f; simpl; apply _. Defined.

(** ** Orders of the view *)

(** [before cmp a b]: the comparator lets [a] stand before [b]. *)
Definition before {A : Type} (cmp : A -> A -> Z) (a b : A) : Prop := cmp a b <= 0.

(** [tied cmp a b]: the comparator lets either stand before the other. *)
Definition tied {A : Type} (cmp : A -> A -> Z) (a b : A) : Prop :=
  cmp a b <= 0 /\ cmp b a <= 0.

(** The order of the "MOST_BAD" mode on its three keys: more out-of-range
    rows first, then more rows first, then the title in collation order. *)
Definition mostBadFirst (localeCompare : string -> string -> Z) (a b : Stat.t) : Prop :=
  Stat.bad a > Stat.bad b
  \/ (Stat.bad a = Stat.bad b
      /\ (len (Stat.rows a) > len (Stat.rows b)
          \/ (len (Stat.rows a) = len (Stat.rows b)
              /\ localeCompare (SectionDef.title (Stat.section a))
                               (SectionDef.title (Stat.section b)) <= 0))).

(** ** The extractor in the words of the specification *)



(** ** Example data *)

(** The range [{ min: 20, max: 40 }] of the specification's examples. *)
Definition range_20_40 : Range.t := Range.mk (Fin 20) (Fin 40).

(** The section of the specification's end-to-end scenario, and raw rows
    for it. *)
Definition fold3bet : SectionDef.t :=
  SectionDef.mk "fold3bet" "Fold to 3-bet" "Fold to 3-bet"
    {[ "Button" := Range.mk (Fin 50) (Fin 65) ]}
    "tighten" "balanced" "widen".

(** A raw row with a position and a cell of the column "Fold to 3-bet". *)
Definition rawRow (position cell : string) : Row :=
  {[ "Position" := position; "Fold to 3-bet" := cell ]}.

(** Three rows that classify as GOOD, LOW and HIGH in this order. *)
Definition raw3 : list Row :=
  [rawRow "Button" "55%"; rawRow "Button" "45%"; rawRow "Button" "70%"].

(** A second catalog entry over the same raw rows, reading another column. *)
Definition vpip : SectionDef.t :=
  SectionDef.mk "vpip" "VPIP" "VPIP"
    {[ "Button" := Range.mk (Fin 20) (Fin 40) ]}
    "loosen" "fine" "tighten".

(** Comparison of titles by code units, as a collation to run examples with. *)
Definition codeUnitCompare (a b : string) : Z :=
  match String.compare a b with Lt => -1 | Eq => 0 | Gt => 1 end.

(** Statistics with given counts, for examples of the ordering. *)
Definition statOf (title : string) (bad rows : nat) : Stat.t :=
  let s := SectionDef.mk title title title ∅ "" "" "" in
  let r := fun o => ComputedRow.mk "Button" None (Fin 0) range_20_40 o "" in
  sectionStat s (replicate bad (r LOW) ++ replicate (rows - bad) (r GOOD)).

(** ** Evaluation with exceptions made explicit *)

(** The one way an operation of the core could throw is a property read or a
    method call on [undefined].  An evaluation that makes this explicit either
    completes with a value or throws a [TypeError]. *)
Inductive completion (A : Type) : Type :=
  | Normal (a : A)
  | TypeError.
Arguments Normal {A} a.
Arguments TypeError {A}.

#[global] Instance completion_ret : MRet completion := fun A a => Normal a.

#[global] Instance completion_bind : MBind completion := fun A B k c =>
  match c with
  | Normal a => k a
  | TypeError => TypeError
  end.

(** The receiver [o] of [o.p] or [o.m()]. *)
Definition deref {A : Type} (o : option A) : completion A :=
  match o with
  | Some a => Normal a
  | None => TypeError
  end.

(** [a || b] on strings that may be [undefined]: [a] unless it is [undefined]
    or empty. *)
Definition orElse (a b : option string) : option string :=
  match a with
  | Some s => if String.eqb s "" then b else a
  | None => b
  end.

(** [a ?? b] *)
Definition nullish {A : Type} (a b : option A) : option A :=
  match a with
  | Some _ => a
  | None => b
  end.

(** The classifier and the two derivations that read dictionaries, with every
    receiver that the dictionaries may leave [undefined] made explicit. *)
Module Checked.

(** [classify]: [range.min] and [range.max] are reads on [range].  They throw
    when [range] is [undefined]; on an object without these properties,
    such as an inherited member, they give [undefined] and do not throw. *)
Definition classify (value : number) (range : option Range.t)
  : completion ResultType :=
  r ← deref range;
  if num_le value (Range.min r) then Normal LOW
  else
    r' ← deref range;
    if num_ge value (Range.max r') then Normal HIGH else Normal GOOD.

(** The body of the inner loop of [computed]: [.trim()] is called on
    [r["Position"] || ""], and [classify] is called behind the guards
    [if (!target) continue] and [if (value == null) continue], with whatever
    object [section.targetsByPosition[position]] has found. *)
Definition computedRow (section : SectionDef.t) (r : Row)
  : completion (option ComputedRow.t) :=
  p ← deref (orElse (r !! "Position") (Some ""));
  let position := trim p in
  if String.eqb position "" then Normal None else
  match getTarget (SectionDef.targetsByPosition section) position with
  | None => Normal None
  | Some target =>
      match parsePercent (r !! SectionDef.column section) with
      | None => Normal None
      | Some value =>
          result ← classify value (Some target);
          let recAction :=
            match result with
            | GOOD => SectionDef.goodAction section
            | LOW => SectionDef.lowAction section
            | HIGH => SectionDef.highAction section
            end in
          Normal (Some (ComputedRow.mk position (r !! "Hands") value target
                                       result recAction))
      end
  end.

Definition sectionRows (section : SectionDef.t) (rawRows : list Row)
  : completion (list ComputedRow.t) :=
  foldl (fun acc r =>
           rows ← acc;
           o ← computedRow section r;
           Normal (match o with
                   | Some cr => (rows ++ [cr])%list
                   | None => rows
                   end))
        (Normal []) rawRows.

Definition computed (SECTIONS : list SectionDef.t) (rawRows : list Row)
  : completion (gmap string (list ComputedRow.t)) :=
  foldl (fun acc section =>
           map ← acc;
           rows ← sectionRows section rawRows;
           Normal (<[SectionDef.id section := rows]> map))
        (Normal ∅) SECTIONS.

(** [sectionStats]: [.filter] and [.length] are called on
    [computed[s.id] ?? []]. *)
Definition sectionStats (SECTIONS : list SectionDef.t)
    (computed : gmap string (list ComputedRow.t)) : completion (list Stat.t) :=
  mapM (fun s =>
          rows ← deref (nullish (computed !! SectionDef.id s) (Some []));
          Normal (sectionStat s rows))
       SECTIONS.

(** One pass: classification, per-section statistics, totals. *)
Definition pipeline (SECTIONS : list SectionDef.t) (rawRows : list Row)
  : completion (list Stat.t * Totals.t) :=
  c ← computed SECTIONS rawRows;
  stats ← sectionStats SECTIONS c;
  Normal (stats, totals stats).

End Checked.

(** * The view state and the render of a section *)

(** The initial value of the state [filters]: every section id is set to
    "ALL". *)
Definition initFilters (SECTIONS : list SectionDef.t) : gmap string RowFilter :=
  foldl (fun init s => <[SectionDef.id s := F_ALL]> init) ∅ SECTIONS.

(** The initial value of the state [openMap]: every section id is set to
    [false]. *)
Definition initOpenMap (SECTIONS : list SectionDef.t) : gmap string bool :=
  foldl (fun init s => <[SectionDef.id s := false]> init) ∅ SECTIONS.

(** [setAllOpen(open)]: the new value of [openMap]. *)
Definition setAllOpen (SECTIONS : list SectionDef.t) (open : bool) : gmap string bool :=
  foldl (fun next s => <[SectionDef.id s := open]> next) ∅ SECTIONS.

(** The updater [(p) => ({ ...p, [section.id]: f })] of the filter buttons. *)
Definition setFilter (id : string) (f : RowFilter) (p : gmap string RowFilter)
  : gmap string RowFilter :=
  <[id := f]> p.

(** The updater [(p) => ({ ...p, [section.id]: next })] of [onToggle]. *)
Definition setOpen (id : string) (next : bool) (p : gmap string bool)
  : gmap string bool :=
  <[id := next]> p.

(** What the callback of [visibleSections.map] computes for one section
    before it renders it. *)
Module SectionView.
Record t : Type := mk {
  localFilter : RowFilter;
  shown : list ComputedRow.t;
  shownGood : Z;
  shownPctGood : number;
  isOpen : bool;
}.
End SectionView.

Definition sectionView (globalRowFilter : RowFilter)
    (filters : gmap string RowFilter) (openMap : gmap string bool)
    (x : Stat.t) : SectionView.t :=
  let localFilter := default F_ALL (filters !! SectionDef.id (Stat.section x)) in
  let shown := rowFilterApply globalRowFilter (Stat.rows x) localFilter in
  let shownGood := len (filter isGood shown) in
  let shownPctGood := percentOf shownGood (len shown) in
  let isOpen := default false (openMap !! SectionDef.id (Stat.section x)) in
  SectionView.mk localFilter shown shownGood shownPctGood isOpen.

(** The paragraph rendered in place of the table when no row is shown;
    [None] when the table is rendered. *)
Definition emptyMessage (rawRows : list Row) (shown : list ComputedRow.t)
  : option string :=
  if len shown =? 0
  then Some (if len rawRows =? 0 then "Load a CSV to see results."
             else "No rows for this filter.")
  else None.

(** The React key of a table row: [`${section.id}-${r.position}`]. *)
Definition rowKey (section : SectionDef.t) (r : ComputedRow.t) : string :=
  (SectionDef.id section ++ "-" ++ ComputedRow.position r)%string.

(** ** Vocabulary of the further properties *)

(** The action a section recommends for an outcome. *)
Definition actionOf (s : SectionDef.t) (o : ResultType) : string :=
  match o with
  | GOOD => SectionDef.goodAction s
  | LOW => SectionDef.lowAction s
  | HIGH => SectionDef.highAction s
  end.

(** The character occurs in the text. *)
Fixpoint occurs (c : ascii) (s : string) : bool :=
  match s with
  | String c' s' => Ascii.eqb c c' || occurs c s'
  | EmptyString => false
  end.

(** The order of the "A_Z" mode: the title in collation order. *)
Definition titleFirst (localeCompare : string -> string -> Z) (a b : Stat.t) : Prop :=
  localeCompare (SectionDef.title (Stat.section a))
                (SectionDef.title (Stat.section b)) <= 0.

(** A section passes the scope selector. *)
Definition inScope (sectionScope : SectionScope) (x : Stat.t) : Prop :=
  match sectionScope with
  | S_ALL => True
  | WITH_BAD => Stat.bad x <> 0
  | WITH_DATA => Stat.rows x <> []
  end.

(** A section matches the normalised query [q]. *)
Definition matchesQuery (q : string) (x : Stat.t) : Prop :=
  q = ""
  \/ includes (toLowerCase (SectionDef.title (Stat.section x))) q = true
  \/ includes (toLowerCase (SectionDef.column (Stat.section x))) q = true
  \/ includes (toLowerCase (SectionDef.id (Stat.section x))) q = true.

(** The outcomes in the order below the range, within it, above it. *)
Definition rank (o : ResultType) : Z :=
  match o with LOW => 0 | GOOD => 1 | HIGH => 2 end.

(** ** Further example data *)

(** A catalog entry that reuses the id of [fold3bet] with another target. *)
Definition fold3betTight : SectionDef.t :=
  SectionDef.mk "fold3bet" "Fold to 3-bet (tight)" "Fold to 3-bet"
    {[ "Button" := Range.mk (Fin 0) (Fin 10) ]}
    "tighten" "balanced" "widen".

(** * Properties *)

(** ** Comparison of numbers *)

(** The operator [<=] decides the order. *)
Lemma num_le_iff (x y : number) : num_le x y = true <-> (x <= y)%num.
Proof.
  destruct x as [a| | |], y as [b| | |]; simpl;
    try (split; [discriminate | contradiction]); try tauto.
  apply Qle_bool_iff.
Qed.

Lemma num_le_false_iff (x y : number) : num_le x y = false <-> ~ (x <= y)%num.
Proof.
  rewrite <- num_le_iff. destruct (num_le x y); split; congruence.
Qed.

Lemma le_not_NaN (x y : number) : (x <= y)%num -> x <> NaN /\ y <> NaN.
Proof. destruct x, y; simpl; intros H; split; congruence || contradiction. Qed.

Lemma le_refl (x : number) : x <> NaN -> (x <= x)%num.
Proof. destruct x; simpl; try congruence; intros _; [apply Qle_refl | exact I..]. Qed.

Lemma le_trans (x y z : number) : (x <= y)%num -> (y <= z)%num -> (x <= z)%num.
Proof.
  destruct x as [a| | |], y as [b| | |], z as [c| | |]; simpl; try tauto.
  apply Qle_trans.
Qed.

(** Among numbers other than [NaN] the order is total. *)
Lemma le_total (x y : number) :
  x <> NaN -> y <> NaN -> ~ (x <= y)%num -> (y <= x)%num.
Proof.
  destruct x as [a| | |], y as [b| | |]; simpl; try congruence; try tauto.
  intros _ _ H. apply Qlt_le_weak. now apply Qnot_le_lt.
Qed.

(** ** C2 and C10: the classifier *)

(** C2, as the code has it.  For a finite value [v] and a range with
    [min <= max], [classify] answers by the first case that applies: LOW when
    [v <= min]; HIGH when [min < v] and [v >= max]; GOOD when [min < v < max].
    The bound [min] itself is LOW, the bound [max] is never GOOD, and it is
    HIGH as soon as [min < max].  The three cases leave no value out. *)
Theorem classify_first_case (v : Q) (r : Range.t) :
  (Range.min r <= Range.max r)%num ->
  ((Fin v <= Range.min r)%num -> classify (Fin v) r = LOW) /\
  ((Range.min r < Fin v)%num -> (Range.max r <= Fin v)%num ->
     classify (Fin v) r = HIGH) /\
  ((Range.min r < Fin v)%num -> (Fin v < Range.max r)%num ->
     classify (Fin v) r = GOOD) /\
  classify (Range.min r) r = LOW /\
  classify (Range.max r) r <> GOOD /\
  ((Range.min r < Range.max r)%num -> classify (Range.max r) r = HIGH) /\
  ((Fin v <= Range.min r)%num
   \/ ((Range.min r < Fin v)%num /\ (Range.max r <= Fin v)%num)
   \/ ((Range.min r < Fin v)%num /\ (Fin v < Range.max r)%num)).
Proof.
  unfold classify, num_ge. intros Hmm.
  destruct (le_not_NaN _ _ Hmm) as [Hmin Hmax].
  split; [|split; [|split; [|split; [|split; [|split]]]]].
  - intros H. apply num_le_iff in H. now rewrite H.
  - intros [_ Hn] H. apply num_le_false_iff in Hn. apply num_le_iff in H.
    now rewrite Hn, H.
  - intros [_ Hn] [_ Hx]. apply num_le_false_iff in Hn, Hx.
    now rewrite Hn, Hx.
  - assert (H : num_le (Range.min r) (Range.min r) = true)
      by now apply num_le_iff, le_refl.
    now rewrite H.
  - assert (H : num_le (Range.max r) (Range.max r) = true)
      by now apply num_le_iff, le_refl.
    rewrite H. destruct (num_le (Range.max r) (Range.min r)); discriminate.
  - intros [_ Hn]. apply num_le_false_iff in Hn. rewrite Hn.
    assert (H : num_le (Range.max r) (Range.max r) = true)
      by now apply num_le_iff, le_refl.
    now rewrite H.
  - assert (Hv : Fin v <> NaN) by discriminate.
    destruct (num_le (Fin v) (Range.min r)) eqn:E1.
    { left. now apply num_le_iff. }
    apply num_le_false_iff in E1. right.
    assert (Hlt : (Range.min r < Fin v)%num)
      by (split; [now apply le_total | exact E1]).
    destruct (num_le (Range.max r) (Fin v)) eqn:E2.
    + left. split; [exact Hlt | now apply num_le_iff].
    + apply num_le_false_iff in E2. right. split; [exact Hlt|].
      split; [now apply le_total | exact E2].
Qed.

(** The examples of C2: 20 is LOW, 40 is HIGH, 20.01 and 39.99 are GOOD. *)
Lemma classify_first_case_witness :
  classify (Fin 20) range_20_40 = LOW /\
  classify (Fin 40) range_20_40 = HIGH /\
  classify (round64 (2001 # 100)) range_20_40 = GOOD /\
  classify (round64 (3999 # 100)) range_20_40 = GOOD.
Proof.
  assert (H : (Range.min range_20_40 <= Range.max range_20_40)%num)
    by (simpl; discriminate).
  split; [|split; [|split]].
  - apply (proj1 (classify_first_case 20 range_20_40 H)).
    simpl. discriminate.
  - apply (proj1 (proj2 (classify_first_case 40 range_20_40 H))).
    + split; simpl; [discriminate | intros C; now apply C].
    + simpl. discriminate.
  - let n := eval vm_compute in (round64 (2001 # 100)) in
    change (round64 (2001 # 100)) with n.
    apply (proj1 (proj2 (proj2 (classify_first_case _ range_20_40 H))));
      (split; simpl; [discriminate | intros C; now apply C]).
  - let n := eval vm_compute in (round64 (3999 # 100)) in
    change (round64 (3999 # 100)) with n.
    apply (proj1 (proj2 (proj2 (classify_first_case _ range_20_40 H))));
      (split; simpl; [discriminate | intros C; now apply C]).
Defined.

(** Where C2 fails as it is stated: in the range [{min: 30, max: 30}] the
    value 30 is [>= max], and is the bound [max] itself, yet the first test
    answers LOW for it and HIGH is never reached.  So "HIGH when [v >= max]"
    does not hold of every range with [min <= max]. *)
Lemma classify_first_case_counterexample :
  let r := Range.mk (Fin 30) (Fin 30) in
  (Range.min r <= Range.max r)%num /\
  (Range.max r <= Fin 30)%num /\
  Range.max r = Fin 30 /\
  classify (Fin 30) r = LOW /\
  ~ (forall (v : Q) (r : Range.t),
       (Range.min r <= Range.max r)%num ->
       ((Fin v <= Range.min r)%num -> classify (Fin v) r = LOW) /\
       ((Range.max r <= Fin v)%num -> classify (Fin v) r = HIGH)).
Proof.
  intros r.
  assert (Hle : (Fin 30 <= Fin 30)%num) by (simpl; discriminate).
  split; [exact Hle|]. split; [exact Hle|].
  split; [reflexivity|]. split; [reflexivity|].
  intros H. destruct (H 30%Q r Hle) as [_ Hhigh].
  specialize (Hhigh Hle). discriminate Hhigh.
Qed.

(** C10.  When [min] and [max] are the same number, no finite value is GOOD,
    and that common bound is LOW. *)
Theorem classify_degenerate_range (v : Q) (r : Range.t) :
  same (Range.min r) (Range.max r) ->
  classify (Fin v) r <> GOOD /\ classify (Range.min r) r = LOW.
Proof.
  intros [H1 H2]. destruct (le_not_NaN _ _ H1) as [Hmin Hmax].
  unfold classify, num_ge. split.
  - destruct (num_le (Fin v) (Range.min r)) eqn:E1; [discriminate|].
    apply num_le_false_iff in E1.
    assert (E2 : num_le (Range.max r) (Fin v) = true).
    { apply num_le_iff. apply le_trans with (Range.min r); [assumption|].
      apply le_total; [discriminate | assumption | assumption]. }
    rewrite E2. discriminate.
  - assert (H : num_le (Range.min r) (Range.min r) = true)
      by now apply num_le_iff, le_refl.
    now rewrite H.
Qed.

Lemma classify_degenerate_range_witness :
  classify (Fin 30) (Range.mk (Fin 30) (Fin 30)) <> GOOD /\
  classify (Fin 30) (Range.mk (Fin 30) (Fin 30)) = LOW.
Proof.
  apply (classify_degenerate_range 30 (Range.mk (Fin 30) (Fin 30))).
  split; simpl; discriminate.
Defined.

(** ** C5: the row filter *)

Lemma filter_True {A : Type} (l : list A) : filter (fun _ => True) l = l.
Proof.
  induction l as [|x l IH]; [reflexivity|].
  rewrite filter_cons_True by exact I. now rewrite IH.
Qed.

(** C5.  The effective filter is the global one unless that is "ALL", in
    which case it is the section's own; the rows returned are exactly the rows
    the effective filter retains, each as often as it occurs and in the order
    of the input. *)
Theorem rowFilterApply_retains (globalRowFilter localFilter : RowFilter)
    (rows : list ComputedRow.t) :
  (globalRowFilter <> F_ALL ->
     effectiveFilter globalRowFilter localFilter = globalRowFilter) /\
  (globalRowFilter = F_ALL ->
     effectiveFilter globalRowFilter localFilter = localFilter) /\
  rowFilterApply globalRowFilter rows localFilter
    = filter (retains (effectiveFilter globalRowFilter localFilter)) rows /\
  (forall r, r ∈ rowFilterApply globalRowFilter rows localFilter <->
             r ∈ rows /\ retains (effectiveFilter globalRowFilter localFilter) r) /\
  sublist (rowFilterApply globalRowFilter rows localFilter) rows.
Proof.
  assert (E : rowFilterApply globalRowFilter rows localFilter
    = filter (retains (effectiveFilter globalRowFilter localFilter)) rows).
  { unfold rowFilterApply.
    destruct (effectiveFilter globalRowFilter localFilter); simpl.
    - symmetry. apply filter_True.
    - apply list_filter_iff. reflexivity.
    - apply list_filter_iff. reflexivity. }
  split; [|split; [|split; [|split]]].
  - destruct globalRowFilter; simpl; congruence.
  - intros ->. reflexivity.
  - exact E.
  - intros r. rewrite E, list_elem_of_filter. tauto.
  - rewrite E. apply sublist_filter.
Qed.

(** A global "BAD" overrides a section's "GOOD"; with the global selector
    back at "ALL" the section's own selector applies. *)
Lemma rowFilterApply_retains_witness :
  effectiveFilter F_BAD F_GOOD = F_BAD /\ effectiveFilter F_ALL F_GOOD = F_GOOD.
Proof.
  split.
  - apply (proj1 (rowFilterApply_retains F_BAD F_GOOD [])). discriminate.
  - apply (proj1 (proj2 (rowFilterApply_retains F_ALL F_GOOD []))). reflexivity.
Defined.

(** ** Rounding *)

Lemma round64_not_NaN (q : Q) : round64 q <> NaN.
Proof.
  unfold round64.
  destruct (Qnum q =? 0); [discriminate|].
  match goal with |- context [if ?b && ?c then _ else _] => destruct (b && c) end;
    [destruct (0 <? Qnum q)|]; discriminate.
Qed.

Lemma nearest_even_ge (n d : Z) : n / d <= nearest_even n d.
Proof.
  unfold nearest_even.
  destruct (2 * (n mod d) ?= d); [destruct (Z.even (n / d))| |]; lia.
Qed.

Lemma nearest_even_le (n d : Z) : nearest_even n d <= n / d + 1.
Proof.
  unfold nearest_even.
  destruct (2 * (n mod d) ?= d); [destruct (Z.even (n / d))| |]; lia.
Qed.

Lemma binade_le (n d : Z) : binade n d <= Z.log2 n - Z.log2 d.
Proof.
  unfold binade.
  match goal with |- context [if ?b then _ else _] => destruct b end; lia.
Qed.


Lemma binade_int (n : Z) : 0 < n -> binade n 1 = Z.log2 n.
Proof.
  intros Hn. unfold binade. change (Z.log2 1) with 0. rewrite Z.sub_0_r.
  pose proof (Z.log2_nonneg n) as H0.
  pose proof (Z.log2_spec n Hn) as [H1 _].
  destruct (0 <=? Z.log2 n) eqn:E; [|apply Z.leb_gt in E; lia].
  destruct (n <? 1 * 2 ^ Z.log2 n) eqn:E2; [apply Z.ltb_lt in E2; lia|reflexivity].
Qed.

Lemma Qred_nonzero (n : Z) (d : positive) : n <> 0 -> Qeq_bool (Qred (n # d)) 0 = false.
Proof.
  intros Hn. destruct (Qeq_bool (Qred (n # d)) 0) eqn:E; [|reflexivity].
  apply Qeq_bool_iff in E. rewrite Qred_correct in E.
  unfold Qeq in E. simpl in E. lia.
Qed.

(** A non-zero integer does not round to zero. *)
Lemma of_Z_nonzero (n : Z) : n <> 0 -> is_zero (of_Z n) = false.
Proof.
  intros Hn. unfold of_Z, round64. simpl Qnum. simpl Qden.
  destruct (n =? 0) eqn:E0; [apply Z.eqb_eq in E0; contradiction|].
  assert (Ha : 0 < Z.abs n) by lia.
  rewrite (binade_int _ Ha).
  pose proof (Z.log2_nonneg (Z.abs n)) as H0.
  pose proof (Z.log2_spec _ Ha) as [H1 _].
  rewrite Z.max_l by lia.
  set (p := Z.log2 (Z.abs n) - 52) in *.
  destruct (0 <=? p) eqn:Ep.
  - apply Z.leb_le in Ep. rewrite andb_true_l.
    set (m := nearest_even (Z.abs n) (1 * 2 ^ p)).
    assert (Hm : 0 < m).
    { pose proof (nearest_even_ge (Z.abs n) (1 * 2 ^ p)) as Hge. fold m in Hge.
      assert (0 < 2 ^ p) by (apply Z.pow_pos_nonneg; lia).
      assert (1 <= Z.abs n / (1 * 2 ^ p)).
      { apply Z.div_le_lower_bound; [lia|].
        replace (Z.log2 (Z.abs n)) with (p + 52) in H1 by (unfold p; lia).
        rewrite Z.pow_add_r in H1 by lia.
        assert (1 <= 2 ^ 52) by (vm_compute; discriminate). nia. }
      lia. }
    destruct (2 ^ 1024 <=? m * 2 ^ p); [destruct (0 <? n); reflexivity|].
    unfold is_zero, Qeq_bool. simpl.
    assert (0 < 2 ^ p) by (apply Z.pow_pos_nonneg; lia).
    apply Z.eqb_neq. nia.
  - apply Z.leb_gt in Ep. rewrite andb_false_l.
    unfold is_zero. apply Qred_nonzero.
    pose proof (nearest_even_ge (Z.abs n * 2 ^ (- p)) 1) as Hge.
    rewrite Z.div_1_r in Hge.
    assert (0 < 2 ^ (- p)) by (apply Z.pow_pos_nonneg; lia).
    nia.
Qed.

Lemma percentOf_zero (whole : Z) : percentOf 0 whole = Fin 0.
Proof.
  unfold percentOf. destruct (whole =? 0) eqn:E; [reflexivity|].
  apply Z.eqb_neq in E.
  pose proof (of_Z_nonzero whole E) as Hz.
  pose proof (round64_not_NaN (inject_Z whole)) as Hn. fold (of_Z whole) in Hn.
  change (of_Z 0) with (Fin 0).
  destruct (of_Z whole) as [b| | |]; try reflexivity; [|contradiction].
  simpl in Hz. unfold num_div. rewrite Hz. reflexivity.
Qed.

Lemma magnitude_le_Qred (k : Z) (q : Q) :
  0 <= k -> magnitude_le k q -> magnitude_le k (Qred q).
Proof.
  unfold magnitude_le. intros Hk H.
  pose proof (Qred_correct q) as E. unfold Qeq in E.
  assert (0 < 2 ^ k) by (apply Z.pow_pos_nonneg; lia).
  assert (Hd : 0 < Z.pos (Qden q)) by lia.
  assert (Hd' : 0 < Z.pos (Qden (Qred q))) by lia.
  set (B := 2 ^ k) in *.
  assert (E2 : Z.abs (Qnum (Qred q)) * Z.pos (Qden q)
               = Z.abs (Qnum q) * Z.pos (Qden (Qred q))).
  { apply (f_equal Z.abs) in E. rewrite !Z.abs_mul in E.
    rewrite (Z.abs_eq (Z.pos (Qden q))) in E by lia.
    rewrite (Z.abs_eq (Z.pos (Qden (Qred q)))) in E by lia. exact E. }
  nia.
Qed.

(** A rational of magnitude at most [2^k], [k <= 1000], rounds to a finite
    number of magnitude at most [2^(k+1)]. *)
Lemma round64_bounded (k : Z) (q : Q) :
  0 <= k <= 1000 -> magnitude_le k q ->
  exists q', round64 q = Fin q' /\ magnitude_le (k + 1) q'.
Proof.
  intros Hk Hq. unfold magnitude_le in Hq. unfold round64.
  assert (Hpk : 0 < 2 ^ k) by (apply Z.pow_pos_nonneg; lia).
  destruct (Qnum q =? 0) eqn:E0.
  { exists 0%Q. split; [reflexivity|]. unfold magnitude_le. simpl.
    assert (0 < 2 ^ (k + 1)) by (apply Z.pow_pos_nonneg; lia). lia. }
  apply Z.eqb_neq in E0.
  set (a := Z.abs (Qnum q)) in *. set (d := Z.pos (Qden q)) in *.
  assert (Ha : 0 < a) by (unfold a; lia).
  assert (Hd : 0 < d) by (unfold d; lia).
  assert (He : binade a d <= k).
  { pose proof (binade_le a d) as Hb.
    assert (Z.log2 a <= Z.log2 (d * 2 ^ k)) as Hl by (apply Z.log2_le_mono; lia).
    rewrite Z.log2_mul_pow2 in Hl by lia. lia. }
  set (p := Z.max (binade a d - 52) (-1074)) in *.
  assert (Hp : p <= k - 52) by (unfold p; lia).
  assert (Hsgn : Z.abs (Z.sgn (Qnum q)) = 1) by lia.
  destruct (0 <=? p) eqn:Ep.
  - apply Z.leb_le in Ep. rewrite andb_true_l.
    set (m := nearest_even a (d * 2 ^ p)).
    assert (Hpp : 0 < 2 ^ p) by (apply Z.pow_pos_nonneg; lia).
    assert (Hm0 : 0 <= m).
    { pose proof (nearest_even_ge a (d * 2 ^ p)) as Hge. fold m in Hge.
      assert (0 <= a / (d * 2 ^ p)) by (apply Z.div_pos; nia). lia. }
    assert (Hm : m * 2 ^ p <= 2 ^ k + 2 ^ p).
    { pose proof (nearest_even_le a (d * 2 ^ p)) as Hle. fold m in Hle.
      assert (a / (d * 2 ^ p) <= 2 ^ (k - p)).
      { apply Z.div_le_upper_bound; [nia|].
        replace (d * 2 ^ p * 2 ^ (k - p)) with (d * (2 ^ p * 2 ^ (k - p))) by ring.
        rewrite <- Z.pow_add_r by lia. replace (p + (k - p)) with k by lia. lia. }
      assert (2 ^ (k - p) * 2 ^ p = 2 ^ k).
      { rewrite <- Z.pow_add_r by lia. f_equal. lia. }
      nia. }
    assert (Hpk2 : 2 ^ p <= 2 ^ k) by (apply Z.pow_le_mono_r; lia).
    assert (Hk1 : 2 ^ (k + 1) = 2 * 2 ^ k) by (rewrite Z.pow_add_r by lia; lia).
    assert (Hbig : 2 ^ (k + 1) < 2 ^ 1024) by (apply Z.pow_lt_mono_r; lia).
    destruct (2 ^ 1024 <=? m * 2 ^ p) eqn:Eo; [apply Z.leb_le in Eo; lia|].
    eexists. split; [reflexivity|]. unfold magnitude_le. simpl.
    rewrite !Z.abs_mul, Hsgn, (Z.abs_eq m), (Z.abs_eq (2 ^ p)) by lia. lia.
  - apply Z.leb_gt in Ep. rewrite andb_false_l.
    eexists. split; [reflexivity|].
    apply magnitude_le_Qred; [lia|]. unfold magnitude_le. simpl.
    set (m := nearest_even (a * 2 ^ (- p)) d).
    assert (Hpp : 0 < 2 ^ (- p)) by (apply Z.pow_pos_nonneg; lia).
    rewrite Z2Pos.id by assumption.
    assert (Hm0 : 0 <= m).
    { pose proof (nearest_even_ge (a * 2 ^ (- p)) d) as Hge. fold m in Hge.
      assert (0 <= a * 2 ^ (- p) / d) by (apply Z.div_pos; nia). lia. }
    pose proof (nearest_even_le (a * 2 ^ (- p)) d) as Hle. fold m in Hle.
    assert (a * 2 ^ (- p) / d <= 2 ^ k * 2 ^ (- p)).
    { apply Z.div_le_upper_bound; [lia|]. nia. }
    assert (Hk1 : 2 ^ (k + 1) = 2 * 2 ^ k) by (rewrite Z.pow_add_r by lia; lia).
    rewrite Z.abs_mul, Hsgn, (Z.abs_eq m) by lia. nia.
Qed.

Lemma nearest_even_1 (n : Z) : nearest_even n 1 = n.
Proof.
  unfold nearest_even. rewrite Z.mod_1_r, Z.div_1_r. reflexivity.
Qed.

(** Integers below 2^53 are binary64 values: converting them is exact. *)
Lemma of_Z_exact (n : Z) : 0 <= n < 2 ^ 53 -> of_Z n = Fin (inject_Z n).
Proof.
  intros [Hn0 Hn]. unfold of_Z, round64. simpl Qnum. simpl Qden.
  destruct (n =? 0) eqn:E0; [apply Z.eqb_eq in E0; now subst|].
  apply Z.eqb_neq in E0.
  assert (Hpos : 0 < n) by lia.
  rewrite (Z.abs_eq n) by lia. rewrite (binade_int _ Hpos).
  assert (Hl : Z.log2 n < 53) by (apply Z.log2_lt_pow2; lia).
  pose proof (Z.log2_nonneg n) as Hl0.
  rewrite Z.max_l by lia.
  assert (Hs : Z.sgn n = 1) by lia. rewrite Hs.
  set (p := Z.log2 n - 52) in *.
  destruct (0 <=? p) eqn:Ep.
  - apply Z.leb_le in Ep. assert (p = 0) as -> by lia.
    change (1 * 2 ^ 0) with 1. rewrite nearest_even_1, andb_true_l.
    destruct (2 ^ 1024 <=? n * 2 ^ 0) eqn:Eo.
    + apply Z.leb_le in Eo. change (2 ^ 0) with 1 in Eo.
      assert (2 ^ 53 < 2 ^ 1024) by (apply Z.pow_lt_mono_r; lia). lia.
    + f_equal. unfold inject_Z. f_equal. change (2 ^ 0) with 1. lia.
  - apply Z.leb_gt in Ep. rewrite andb_false_l, nearest_even_1.
    f_equal. rewrite <- (inject_Z_Qred n). apply Qred_complete.
    assert (Hpp : 0 < 2 ^ (- p)) by (apply Z.pow_pos_nonneg; lia).
    unfold Qeq, inject_Z. simpl. rewrite Z2Pos.id by assumption. ring.
Qed.

(** The guarded percentage of a part of a whole below 2^53 is a finite
    number: neither [NaN] nor an infinity. *)
Lemma percentOf_finite (part whole : Z) :
  0 <= part <= whole -> whole < 2 ^ 53 ->
  exists q, percentOf part whole = Fin q.
Proof.
  intros Hp Hw. unfold percentOf.
  destruct (whole =? 0) eqn:E0; [now exists 0%Q|].
  apply Z.eqb_neq in E0.
  rewrite !of_Z_exact by lia.
  destruct whole as [|w|w]; try lia.
  unfold num_div.
  replace (Qeq_bool (inject_Z (Z.pos w)) 0) with false by reflexivity.
  destruct (round64_bounded 0 (inject_Z part / inject_Z (Z.pos w)))
    as (q1 & -> & Hq1); [lia| |].
  { unfold magnitude_le. simpl. lia. }
  unfold num_mul.
  destruct (round64_bounded 8 (q1 * 100)) as (q2 & -> & _); [lia| |].
  { unfold magnitude_le in *. simpl.
    change (2 ^ (0 + 1)) with 2 in Hq1. change (2 ^ 8) with 256.
    rewrite Z.abs_mul. change (Z.abs 100) with 100.
    rewrite Pos2Z.inj_mul. lia. }
  now exists q2.
Qed.

(** ** C1: per-section statistics *)

Lemma len_cons {A : Type} (x : A) (l : list A) : len (x :: l) = 1 + len l.
Proof. unfold len. simpl length. lia. Qed.

Lemma len_nonneg {A : Type} (l : list A) : 0 <= len l.
Proof. unfold len. lia. Qed.

Lemma len_zero {A : Type} (l : list A) : len l = 0 <-> l = [].
Proof.
  unfold len. destruct l; simpl; split; intros H;
    reflexivity || discriminate.
Qed.

Lemma len_filter_isGood (rows : list ComputedRow.t) :
  len (filter isGood rows) = occurrences GOOD rows.
Proof.
  induction rows as [|r rows IH]; [reflexivity|].
  rewrite filter_cons. simpl occurrences. unfold isGood at 1.
  destruct (decide (ComputedRow.result r = GOOD)).
  - rewrite len_cons, IH. reflexivity.
  - rewrite IH. lia.
Qed.

Lemma occurrences_total (rows : list ComputedRow.t) :
  occurrences LOW rows + occurrences GOOD rows + occurrences HIGH rows = len rows.
Proof.
  induction rows as [|r rows IH]; [reflexivity|].
  rewrite len_cons. simpl. destruct (ComputedRow.result r); simpl; lia.
Qed.

Lemma occurrences_nonneg (o : ResultType) (rows : list ComputedRow.t) :
  0 <= occurrences o rows.
Proof.
  induction rows as [|r rows IH]; simpl; [lia|].
  destruct (decide (ComputedRow.result r = o)); lia.
Qed.

Lemma sectionStats_elem (SECTIONS : list SectionDef.t)
    (cmp : gmap string (list ComputedRow.t)) (x : Stat.t) :
  x ∈ sectionStats SECTIONS cmp ->
  x = sectionStat (Stat.section x) (Stat.rows x).
Proof.
  unfold sectionStats. intros H. apply list_elem_of_fmap in H.
  destruct H as (s & -> & _). reflexivity.
Qed.

(** The counts of one entry of [sectionStats]. *)
Lemma sectionStat_counts (s : SectionDef.t) (rows : list ComputedRow.t) :
  Stat.good (sectionStat s rows) = occurrences GOOD rows /\
  Stat.bad (sectionStat s rows) = len rows - occurrences GOOD rows /\
  Stat.bad (sectionStat s rows) = occurrences LOW rows + occurrences HIGH rows /\
  0 <= occurrences GOOD rows <= len rows /\
  (len rows < 2 ^ 53 -> isFinite (Stat.pctGood (sectionStat s rows)) = true).
Proof.
  simpl. rewrite len_filter_isGood.
  pose proof (occurrences_total rows) as Ht.
  pose proof (occurrences_nonneg LOW rows).
  pose proof (occurrences_nonneg HIGH rows).
  pose proof (occurrences_nonneg GOOD rows).
  split; [reflexivity|]. split; [reflexivity|]. split; [lia|]. split; [lia|].
  intros Hlen.
  destruct (percentOf_finite (occurrences GOOD rows) (len rows)) as [q ->];
    [lia | assumption | reflexivity].
Qed.

(** C1, as the code has it.  For every element [x] of [sectionStats]:
    [good] is the number of its rows with outcome GOOD; [bad] is the rest,
    which is the number of LOW and HIGH rows; [pctGood] is the percentage
    [(good / rows.length) * 100] in binary64 arithmetic when there is a row
    and 0 when there is none; and it is a finite number, never [NaN]. *)
Theorem sectionStats_counts (SECTIONS : list SectionDef.t)
    (cmp : gmap string (list ComputedRow.t)) (x : Stat.t) :
  x ∈ sectionStats SECTIONS cmp ->
  Stat.good x = occurrences GOOD (Stat.rows x) /\
  Stat.bad x = len (Stat.rows x) - Stat.good x /\
  Stat.bad x = occurrences LOW (Stat.rows x) + occurrences HIGH (Stat.rows x) /\
  (Stat.rows x <> [] ->
     Stat.pctGood x
     = num_mul (num_div (of_Z (Stat.good x)) (of_Z (len (Stat.rows x)))) (Fin 100)) /\
  (Stat.rows x = [] -> Stat.pctGood x = Fin 0) /\
  (len (Stat.rows x) < 2 ^ 53 -> isFinite (Stat.pctGood x) = true).
Proof.
  intros Hx. apply sectionStats_elem in Hx.
  destruct (sectionStat_counts (Stat.section x) (Stat.rows x))
    as (Hg & Hb & Hb2 & _ & Hf).
  rewrite <- Hx in Hg, Hb, Hb2, Hf.
  split; [exact Hg|]. split; [now rewrite Hg|]. split; [exact Hb2|].
  split; [|split].
  - intros Hne. rewrite Hx at 1. simpl. rewrite <- len_filter_isGood in Hg.
    rewrite Hg. unfold percentOf.
    destruct (len (Stat.rows x) =? 0) eqn:E; [|reflexivity].
    apply Z.eqb_eq, len_zero in E. contradiction.
  - intros E. rewrite Hx, E. reflexivity.
  - exact Hf.
Qed.

(** The example of the specification: rows classified GOOD, LOW, HIGH give
    [good = 1], [bad = 2]. *)
Lemma sectionStats_counts_witness :
  let x := sectionStat fold3bet (sectionRows fold3bet raw3) in
  Stat.good x = 1 /\ Stat.bad x = 2 /\ isFinite (Stat.pctGood x) = true.
Proof.
  intros x.
  assert (Hx : x ∈ sectionStats [fold3bet] (computed [fold3bet] raw3)).
  { vm_compute. constructor. }
  pose proof (sectionStats_counts [fold3bet] (computed [fold3bet] raw3) x Hx)
    as (Hg & Hb & _ & _ & _ & Hf).
  split; [rewrite Hg; reflexivity|].
  split; [rewrite Hb, Hg; reflexivity|].
  apply Hf. reflexivity.
Defined.

(** Where the claim of a plain fraction fails: for rows classified GOOD, LOW,
    HIGH the field [pctGood] is the binary64 value of 33.33333333333333, not
    that of 1/3, which is what [good / rows.length] evaluates to. *)
Lemma sectionStats_fraction_counterexample :
  let x := sectionStat fold3bet (sectionRows fold3bet raw3) in
  x ∈ sectionStats [fold3bet] (computed [fold3bet] raw3) /\
  map ComputedRow.result (Stat.rows x) = [GOOD; LOW; HIGH] /\
  Stat.pctGood x = Fin (2345624805922133 # 70368744177664) /\
  num_div (of_Z (Stat.good x)) (of_Z (len (Stat.rows x)))
    = Fin (6004799503160661 # 18014398509481984) /\
  Stat.pctGood x <> num_div (of_Z (Stat.good x)) (of_Z (len (Stat.rows x))).
Proof.
  intros x.
  split; [vm_compute; constructor|].
  split; [reflexivity|].
  split; [vm_compute; reflexivity|].
  split; [vm_compute; reflexivity|].
  vm_compute. discriminate.
Qed.

(** ** C7 and C9: totals *)

Lemma foldl_add_sumZ {A : Type} (f : A -> Z) (l : list A) (a : Z) :
  foldl (fun acc x => acc + f x) a l = a + sumZ (map f l).
Proof.
  revert a. induction l as [|x l IH]; intros a; simpl; [lia|].
  rewrite IH. lia.
Qed.

Lemma sumZ_Permutation (l l' : list Z) : l ≡ₚ l' -> sumZ l = sumZ l'.
Proof. induction 1; simpl in *; lia. Qed.

Lemma len_Permutation {A : Type} (l l' : list A) : l ≡ₚ l' -> len l = len l'.
Proof. intros H. unfold len. now rewrite H. Qed.

Lemma filter_ext_elem {A : Type} (P Q : A -> Prop)
    `{!forall x, Decision (P x)} `{!forall x, Decision (Q x)} (l : list A) :
  (forall x, x ∈ l -> P x <-> Q x) -> filter P l = filter Q l.
Proof.
  induction l as [|x l IH]; intros Hl; [reflexivity|].
  rewrite !filter_cons.
  assert (Hx : P x <-> Q x) by (apply Hl; left).
  rewrite IH by (intros y Hy; apply Hl; now right).
  destruct (decide (P x)), (decide (Q x)); tauto.
Qed.

Lemma occurrences_bad_Exists (rows : list ComputedRow.t) :
  occurrences LOW rows + occurrences HIGH rows > 0 <-> Exists isBad rows.
Proof.
  induction rows as [|r rows IH]; simpl.
  - split; [lia|]. intros E. inversion E.
  - pose proof (occurrences_nonneg LOW rows) as Hl.
    pose proof (occurrences_nonneg HIGH rows) as Hh.
    rewrite Exists_cons, <- IH. unfold isBad.
    destruct (ComputedRow.result r); simpl.
    + split; [intros _; left; discriminate | lia].
    + split; [intros E; right; lia | intros [E|E]; [congruence | lia]].
    + split; [intros _; left; discriminate | lia].
Qed.

Lemma sumZ_bad (l : list Stat.t) :
  (forall x, x ∈ l -> Stat.bad x = len (Stat.rows x) - Stat.good x) ->
  sumZ (map (fun x => len (Stat.rows x)) l) - sumZ (map Stat.good l)
  = sumZ (map Stat.bad l).
Proof.
  induction l as [|x l IH]; intros Hl; [reflexivity|].
  simpl. rewrite (Hl x) by left.
  rewrite <- IH by (intros y Hy; apply Hl; now right). lia.
Qed.

(** [totals] does not depend on the order of the statistics it reduces. *)
Lemma totals_Permutation (l l' : list Stat.t) : l ≡ₚ l' -> totals l = totals l'.
Proof.
  intros H. unfold totals. rewrite !foldl_add_sumZ.
  rewrite (sumZ_Permutation (map (fun x => len (Stat.rows x)) l)
             (map (fun x => len (Stat.rows x)) l')) by now apply Permutation_map.
  rewrite (sumZ_Permutation (map Stat.good l) (map Stat.good l'))
    by now apply Permutation_map.
  rewrite (len_Permutation (filter hasData l) (filter hasData l'))
    by now apply filter_Permutation.
  rewrite (len_Permutation (filter hasBad l) (filter hasBad l'))
    by now apply filter_Permutation.
  reflexivity.
Qed.

(** C7, as the code has it.  Over the statistics of all sections, the totals
    are the sums of the per-section GOOD counts, of the per-section
    out-of-range counts and of the row counts; [pctGood] is the percentage
    [(totalGood / totalRows) * 100] in binary64 arithmetic, and 0 when there is
    no row at all; [sectionsWithData] counts the sections with a row and
    [sectionsWithBad] those with a row that is not GOOD; and every
    arrangement of the same statistics has the same totals. *)
Theorem totals_sums (SECTIONS : list SectionDef.t)
    (cmp : gmap string (list ComputedRow.t)) :
  let stats := sectionStats SECTIONS cmp in
  let t := totals stats in
  Totals.totalGood t = sumZ (map Stat.good stats) /\
  Totals.totalBad t = sumZ (map Stat.bad stats) /\
  Totals.totalRows t = sumZ (map (fun x => len (Stat.rows x)) stats) /\
  (Totals.totalRows t <> 0 ->
     Totals.pctGood t
     = num_mul (num_div (of_Z (Totals.totalGood t)) (of_Z (Totals.totalRows t)))
               (Fin 100)) /\
  (Totals.totalRows t = 0 -> Totals.pctGood t = Fin 0) /\
  Totals.sectionsWithData t = len (filter (fun x => Stat.rows x <> []) stats) /\
  Totals.sectionsWithBad t
    = len (filter (fun x => Exists isBad (Stat.rows x)) stats) /\
  (forall stats', stats ≡ₚ stats' -> totals stats' = t).
Proof.
  intros stats t.
  assert (Hwf : forall x, x ∈ stats ->
            Stat.bad x = len (Stat.rows x) - Stat.good x /\
            Stat.bad x = occurrences LOW (Stat.rows x) + occurrences HIGH (Stat.rows x)).
  { intros x Hx. apply sectionStats_elem in Hx.
    destruct (sectionStat_counts (Stat.section x) (Stat.rows x))
      as (Hg & H1 & H2 & _).
    rewrite <- Hx in Hg, H1, H2. rewrite Hg. now split. }
  assert (Ht : t = totals stats) by reflexivity. clearbody t.
  split; [|split; [|split; [|split; [|split; [|split; [|split]]]]]].
  - subst t. unfold totals; simpl. now rewrite foldl_add_sumZ.
  - subst t. unfold totals; simpl. rewrite !foldl_add_sumZ, !Z.add_0_l.
    apply sumZ_bad. intros x Hx. now destruct (Hwf x Hx).
  - subst t. unfold totals; simpl. now rewrite foldl_add_sumZ.
  - subst t. unfold totals; simpl. intros Hne. unfold percentOf.
    destruct (_ =? 0) eqn:E; [apply Z.eqb_eq in E; contradiction|reflexivity].
  - subst t. unfold totals; simpl. intros ->. reflexivity.
  - subst t. unfold totals; simpl.
    f_equal. apply filter_ext_elem. intros x _. unfold hasData.
    rewrite <- len_zero. pose proof (len_nonneg (Stat.rows x)). lia.
  - subst t. unfold totals; simpl.
    f_equal. apply filter_ext_elem. intros x Hx. unfold hasBad.
    destruct (Hwf x Hx) as [_ ->]. apply occurrences_bad_Exists.
  - intros stats' Hp. subst t. symmetry. now apply totals_Permutation.
Qed.

(** Two sections taken in either order have the same totals. *)
Lemma totals_sums_witness :
  totals (sectionStats [vpip; fold3bet] (computed [fold3bet; vpip] raw3))
  = totals (sectionStats [fold3bet; vpip] (computed [fold3bet; vpip] raw3)).
Proof.
  apply (totals_sums [fold3bet; vpip] (computed [fold3bet; vpip] raw3)).
  simpl. apply Permutation_swap.
Defined.

(** Where the claim of a plain fraction fails for the totals: with one
    section whose rows are GOOD, LOW, HIGH, [pctGood] is the binary64 value of
    33.33333333333333 and not [totalGood / totalRows]. *)
Lemma totals_fraction_counterexample :
  let t := totals (sectionStats [fold3bet] (computed [fold3bet] raw3)) in
  Totals.totalGood t = 1 /\ Totals.totalRows t = 3 /\
  Totals.pctGood t = Fin (2345624805922133 # 70368744177664) /\
  Totals.pctGood t
    <> num_div (of_Z (Totals.totalGood t)) (of_Z (Totals.totalRows t)).
Proof.
  intros t.
  split; [reflexivity|]. split; [reflexivity|].
  split; [vm_compute; reflexivity|].
  vm_compute. discriminate.
Qed.

(** C9.  Whatever the statistics, [goodStats] is 0, [pctGoodStats] is 0, and
    [badStats] equals [totalStats], the number of sections with at least one
    row. *)
Theorem totals_goodStats_constant (stats : list Stat.t) :
  Totals.goodStats (totals stats) = 0 /\
  Totals.pctGoodStats (totals stats) = Fin 0 /\
  Totals.badStats (totals stats) = Totals.totalStats (totals stats) /\
  Totals.totalStats (totals stats)
    = len (filter (fun x => Stat.rows x <> []) stats).
Proof.
  unfold totals. simpl.
  split; [reflexivity|]. split; [apply percentOf_zero|]. split; [lia|].
  f_equal. apply filter_ext_elem. intros x _. unfold hasData.
  rewrite <- len_zero. pose proof (len_nonneg (Stat.rows x)). lia.
Qed.

(** ** C4: the skip policy of the row classifier *)

(** The inner loop keeps, in row order, the rows its body does not skip. *)
Lemma sectionRows_omap (s : SectionDef.t) (rawRows : list Row) :
  sectionRows s rawRows = omap (computedRow s) rawRows.
Proof.
  unfold sectionRows.
  enough (H : forall acc,
    foldl (fun rows r => match computedRow s r with
                         | Some cr => (rows ++ [cr])%list
                         | None => rows
                         end) acc rawRows
    = (acc ++ omap (computedRow s) rawRows)%list) by apply (H []).
  induction rawRows as [|r rawRows IH]; intros acc; simpl.
  - now rewrite app_nil_r.
  - rewrite IH. destruct (computedRow s r); [|reflexivity].
    now rewrite <- app_assoc.
Qed.

(** The outer loop leaves alone the entries of ids it does not meet. *)
Lemma computed_lookup_other (rawRows : list Row) (l : list SectionDef.t)
    (m : gmap string (list ComputedRow.t)) (k : string) :
  k ∉ map SectionDef.id l ->
  foldl (fun map section =>
           <[SectionDef.id section := sectionRows section rawRows]> map) m l !! k
  = m !! k.
Proof.
  revert m. induction l as [|s l IH]; intros m Hk; [reflexivity|].
  simpl in *. rewrite IH by (intros H; apply Hk; now right).
  apply lookup_insert_ne. intros E. subst k. apply Hk. left.
Qed.

(** With distinct ids, every section finds its own rows in [computed]. *)
Lemma computed_lookup (SECTIONS : list SectionDef.t) (rawRows : list Row)
    (s : SectionDef.t) :
  NoDup (map SectionDef.id SECTIONS) -> s ∈ SECTIONS ->
  computed SECTIONS rawRows !! SectionDef.id s = Some (sectionRows s rawRows).
Proof.
  unfold computed. generalize (∅ : gmap string (list ComputedRow.t)).
  induction SECTIONS as [|s' l IH]; intros m Hnd Hs; [inversion Hs|].
  simpl in *. apply NoDup_cons in Hnd as [Hnotin Hnd].
  apply elem_of_cons in Hs as [->|Hs].
  - rewrite computed_lookup_other by assumption. apply lookup_insert_eq.
  - now apply IH.
Qed.

(** Every section of the catalog has an entry in [computed], whatever the
    ids. *)
Lemma computed_is_Some (SECTIONS : list SectionDef.t) (rawRows : list Row)
    (s : SectionDef.t) :
  s ∈ SECTIONS -> is_Some (computed SECTIONS rawRows !! SectionDef.id s).
Proof.
  intros Hs.
  assert (Hk : SectionDef.id s ∈ map SectionDef.id SECTIONS)
    by (apply list_elem_of_fmap; eauto).
  revert Hk. generalize (SectionDef.id s) as k. clear s Hs.
  unfold computed. generalize (∅ : gmap string (list ComputedRow.t)).
  induction SECTIONS as [|s' l IH]; intros m k Hk; [inversion Hk|].
  simpl in *. destruct (decide (k ∈ map SectionDef.id l)) as [Hin|Hout].
  - now apply IH.
  - rewrite computed_lookup_other by assumption.
    apply elem_of_cons in Hk as [->|Hk]; [|contradiction].
    rewrite lookup_insert_eq. eauto.
Qed.

(** The read of a target finds nothing exactly when the label is neither a
    key of the targets nor the name of a member of [Object.prototype]. *)
Lemma getTarget_None (targets : gmap string Range.t) (position : string) :
  getTarget targets position = None <->
  targets !! position = None /\ position ∉ objectPrototypeMembers.
Proof.
  unfold getTarget. destruct (targets !! position) as [range|].
  - split; [discriminate | intros [H _]; discriminate H].
  - destruct (bool_decide_reflect (position ∈ objectPrototypeMembers)) as [Hin|Hout].
    + split; [discriminate | intros [_ H]; contradiction].
    + tauto.
Qed.

(** What the read of a target finds: the own entry of the label, or, when
    there is none, an inherited member. *)
Lemma getTarget_Some (targets : gmap string Range.t) (position : string)
    (target : Range.t) :
  getTarget targets position = Some target <->
  targets !! position = Some target
  \/ (targets !! position = None /\ position ∈ objectPrototypeMembers
      /\ target = inheritedMember).
Proof.
  unfold getTarget. destruct (targets !! position) as [range|].
  - split; [now left | intros [H|[H _]]; [exact H | discriminate H]].
  - destruct (bool_decide_reflect (position ∈ objectPrototypeMembers)) as [Hin|Hout].
    + split.
      * intros [= <-]. right. auto.
      * intros [H|(_ & _ & ->)]; [discriminate H | reflexivity].
    + split; [discriminate | intros [H|(_ & H & _)]; [discriminate H | contradiction]].
Qed.

(** An inherited member has no bounds to compare with: every value is GOOD. *)
Lemma classify_inheritedMember (value : number) :
  classify value inheritedMember = GOOD.
Proof. destruct value; reflexivity. Qed.

(** When the body of the loop skips a row. *)
Lemma computedRow_None (s : SectionDef.t) (r : Row) :
  computedRow s r = None <->
  trim (default "" (r !! "Position")) = ""
  \/ getTarget (SectionDef.targetsByPosition s)
               (trim (default "" (r !! "Position"))) = None
  \/ parsePercent (r !! SectionDef.column s) = None.
Proof.
  unfold computedRow.
  destruct (String.eqb_spec (trim (default "" (r !! "Position"))) "") as [E|E].
  { tauto. }
  destruct (getTarget _ _) as [target|]; [|tauto].
  destruct (parsePercent _) as [value|]; [|tauto].
  split; [discriminate|]. intros [H|[H|H]]; [contradiction|discriminate..].
Qed.

(** C4, at the input where the code departs from it.  The section
    "Fold to 3-bet" has a target for "Button" only, so it has no entry for the
    label "constructor"; the cell "55%" has a value.  The row is not skipped:
    the read [targetsByPosition["constructor"]] finds the member that every
    object inherits, the guard [if (!target) continue] lets it pass, and the
    row is stored as a GOOD row with the action of a GOOD row. *)
Theorem computed_inherited_label :
  SectionDef.targetsByPosition fold3bet !! "constructor" = None /\
  trim "constructor" = "constructor" /\
  parsePercent (rawRow "constructor" "55%" !! SectionDef.column fold3bet)
    = Some (Fin 55) /\
  computedRow fold3bet (rawRow "constructor" "55%")
    = Some (ComputedRow.mk "constructor" None (Fin 55) inheritedMember
                           GOOD "balanced") /\
  computed [fold3bet] [rawRow "constructor" "55%"] !! "fold3bet"
    = Some [ComputedRow.mk "constructor" None (Fin 55) inheritedMember
                           GOOD "balanced"].
Proof.
  split; [reflexivity|]. split; [reflexivity|].
  split; [vm_compute; reflexivity|].
  split; vm_compute; reflexivity.
Qed.

(** X21.  With distinct section ids, the sequence stored for a section of the
    catalog consists, in row order, of the rows its loop body does not skip.
    The body skips a row exactly when the trimmed position label is empty, or
    the label is neither a key of the section's targets nor the name of a
    member of [Object.prototype], or the cell of the section's column has no
    value.  A row skipped for one section is still present for every other
    section whose body keeps it. *)
Theorem computed_rows_kept (SECTIONS : list SectionDef.t)
    (rawRows : list Row) (s : SectionDef.t) :
  NoDup (map SectionDef.id SECTIONS) -> s ∈ SECTIONS ->
  computed SECTIONS rawRows !! SectionDef.id s
    = Some (omap (computedRow s) rawRows) /\
  (forall r, computedRow s r = None <->
     trim (default "" (r !! "Position")) = ""
     \/ (SectionDef.targetsByPosition s !! trim (default "" (r !! "Position"))
           = None
         /\ trim (default "" (r !! "Position")) ∉ objectPrototypeMembers)
     \/ parsePercent (r !! SectionDef.column s) = None) /\
  (forall r, r ∈ rawRows -> computedRow s r = None ->
     forall s' cr, s' ∈ SECTIONS -> computedRow s' r = Some cr ->
       exists rows', computed SECTIONS rawRows !! SectionDef.id s' = Some rows'
                     /\ cr ∈ rows').
Proof.
  intros Hnd Hs. split; [|split].
  - rewrite computed_lookup by assumption. now rewrite sectionRows_omap.
  - intros r. rewrite computedRow_None, getTarget_None. reflexivity.
  - intros r Hr _ s' cr Hs' Hcr.
    exists (omap (computedRow s') rawRows). split.
    + rewrite computed_lookup by assumption. now rewrite sectionRows_omap.
    + apply list_elem_of_omap. eauto.
Qed.

(** A row with no "VPIP" cell is skipped by the section reading that column
    and is kept by the section reading "Fold to 3-bet". *)
Lemma computed_rows_kept_witness :
  computed [fold3bet; vpip] [rawRow "Button" "45%"] !! "vpip" = Some [] /\
  computed [fold3bet; vpip] [rawRow "Button" "45%"] !! "fold3bet"
    = Some [ComputedRow.mk "Button" None (Fin 45) (Range.mk (Fin 50) (Fin 65))
                           LOW "tighten"].
Proof.
  assert (Hnd : NoDup (map SectionDef.id [fold3bet; vpip])) by compute_done.
  split.
  - apply (computed_rows_kept [fold3bet; vpip] [rawRow "Button" "45%"] vpip Hnd).
    apply list_elem_of_further, list_elem_of_here.
  - apply (computed_rows_kept [fold3bet; vpip] [rawRow "Button" "45%"] fold3bet Hnd).
    apply list_elem_of_here.
Defined.

(** ** C6: the order of the visible sections *)

Section Sorting.
Context {A : Type} (cmp : A -> A -> Z).

Lemma sortInsert_Permutation (x : A) (l : list A) : sortInsert cmp x l ≡ₚ x :: l.
Proof.
  induction l as [|y l IH]; simpl; [reflexivity|].
  destruct (cmp x y <=? 0); [reflexivity|].
  rewrite IH. apply Permutation_swap.
Qed.

Lemma sort_Permutation (l : list A) : sort cmp l ≡ₚ l.
Proof.
  induction l as [|x l IH]; simpl; [reflexivity|].
  rewrite sortInsert_Permutation. now rewrite IH.
Qed.

(** Elements tied with [a] are never moved past one another. *)
Lemma sortInsert_tied (Htrans : forall a b c, cmp a b <= 0 -> cmp b c <= 0 -> cmp a c <= 0)
    (a x : A) (l : list A) :
  filter (tied cmp a) (sortInsert cmp x l) = filter (tied cmp a) (x :: l).
Proof.
  induction l as [|y l IH]; simpl; [reflexivity|].
  destruct (cmp x y <=? 0) eqn:E; [reflexivity|].
  apply Z.leb_gt in E.
  rewrite (filter_cons _ y), IH, !filter_cons.
  destruct (decide (tied cmp a y)) as [[Hy1 Hy2]|Hy];
    destruct (decide (tied cmp a x)) as [[Hx1 Hx2]|Hx]; try reflexivity.
  exfalso. pose proof (Htrans x a y Hx2 Hy1). lia.
Qed.

Lemma sort_tied (Htrans : forall a b c, cmp a b <= 0 -> cmp b c <= 0 -> cmp a c <= 0)
    (a : A) (l : list A) :
  filter (tied cmp a) (sort cmp l) = filter (tied cmp a) l.
Proof.
  induction l as [|x l IH]; simpl; [reflexivity|].
  rewrite sortInsert_tied by assumption. now rewrite !filter_cons, IH.
Qed.

Hypothesis cmp_total : forall a b, 0 < cmp a b -> cmp b a <= 0.
Hypothesis cmp_trans : forall a b c, cmp a b <= 0 -> cmp b c <= 0 -> cmp a c <= 0.

Lemma sortInsert_sorted (x : A) (l : list A) :
  StronglySorted (before cmp) l -> StronglySorted (before cmp) (sortInsert cmp x l).
Proof.
  induction l as [|y l IH]; intros Hl; simpl.
  - repeat constructor.
  - apply StronglySorted_inv in Hl as [Hl Hy].
    destruct (cmp x y <=? 0) eqn:E.
    + apply Z.leb_le in E. constructor; [now constructor|].
      constructor; [exact E|].
      eapply Forall_impl; [exact Hy|]. intros z Hz. exact (cmp_trans _ _ _ E Hz).
    + apply Z.leb_gt in E. constructor; [now apply IH|].
      rewrite sortInsert_Permutation. constructor; [|exact Hy].
      now apply cmp_total.
Qed.

Lemma sort_sorted (l : list A) : StronglySorted (before cmp) (sort cmp l).
Proof.
  induction l as [|x l IH]; simpl; [constructor|]. now apply sortInsert_sorted.
Qed.

(** Sorting a sorted list returns it unchanged. *)
Lemma sort_sorted_id (l : list A) : StronglySorted (before cmp) l -> sort cmp l = l.
Proof.
  induction l as [|x l IH]; intros Hl; simpl; [reflexivity|].
  apply StronglySorted_inv in Hl as [Hl Hx]. rewrite IH by assumption.
  destruct l as [|y l]; [reflexivity|]. simpl.
  apply Forall_cons in Hx as [Hxy _]. unfold before in Hxy.
  apply Z.leb_le in Hxy. now rewrite Hxy.
Qed.
Lemma cmp_refl (a : A) : cmp a a <= 0.
Proof.
  destruct (Z_lt_le_dec 0 (cmp a a)) as [H|H]; [|exact H].
  now apply cmp_total.
Qed.

(** The result of a stable sort is determined: a list that is ordered by the
    comparator, has the elements of [l], and keeps tied elements in the order
    they have in [l], is [sort cmp l]. *)
Lemma sort_unique (l l' : list A) :
  l' ≡ₚ l -> StronglySorted (before cmp) l' ->
  (forall a, filter (tied cmp a) l' = filter (tied cmp a) l) ->
  l' = sort cmp l.
Proof.
  intros Hp Hs Ht.
  assert (Hp2 : l' ≡ₚ sort cmp l) by now rewrite sort_Permutation.
  assert (Ht2 : forall a, filter (tied cmp a) l' = filter (tied cmp a) (sort cmp l))
    by (intros a; now rewrite sort_tied).
  pose proof (sort_sorted l) as Hs2.
  clear Hp Ht. revert Hp2 Hs Ht2 Hs2. generalize (sort cmp l) as k. clear l.
  induction l' as [|x t1 IH]; intros k Hp Hs Ht Hk.
  { apply Permutation_nil_l in Hp. now subst. }
  destruct k as [|y t2]; [now apply Permutation_nil_r in Hp|].
  apply StronglySorted_inv in Hs as [Hs1 Hx].
  apply StronglySorted_inv in Hk as [Hk1 Hy].
  assert (Hxy : x = y).
  { assert (Hb1 : before cmp y x).
    { assert (Hin : x ∈ y :: t2) by (rewrite <- Hp; left).
      apply elem_of_cons in Hin as [->|Hin]; [apply cmp_refl|].
      rewrite Forall_forall in Hy. now apply Hy. }
    assert (Hb2 : before cmp x y).
    { assert (Hin : y ∈ x :: t1) by (rewrite Hp; left).
      apply elem_of_cons in Hin as [->|Hin]; [apply cmp_refl|].
      rewrite Forall_forall in Hx. now apply Hx. }
    specialize (Ht x). rewrite !filter_cons in Ht.
    destruct (decide (tied cmp x x)) as [_|Hn];
      [|exfalso; apply Hn; split; apply cmp_refl].
    destruct (decide (tied cmp x y)) as [_|Hn];
      [|exfalso; apply Hn; now split].
    now injection Ht. }
  subst y. f_equal. apply IH; try assumption.
  - now apply Permutation_cons_inv in Hp.
  - intros a. specialize (Ht a). rewrite !filter_cons in Ht.
    destruct (decide (tied cmp a x)); [now injection Ht|exact Ht].
Qed.

End Sorting.

Section MostBad.
Variable localeCompare : string -> string -> Z.

Lemma compareMostBad_before (a b : Stat.t) :
  before (compareMostBad localeCompare) a b <-> mostBadFirst localeCompare a b.
Proof.
  unfold before, compareMostBad, mostBadFirst.
  destruct (Stat.bad b =? Stat.bad a) eqn:E1; simpl;
    [apply Z.eqb_eq in E1 | apply Z.eqb_neq in E1; lia].
  destruct (len (Stat.rows b) =? len (Stat.rows a)) eqn:E2; simpl;
    [apply Z.eqb_eq in E2 | apply Z.eqb_neq in E2; lia].
  lia.
Qed.

Hypothesis localeCompare_total :
  forall s t, 0 < localeCompare s t -> localeCompare t s <= 0.
Hypothesis localeCompare_trans :
  forall s t u, localeCompare s t <= 0 -> localeCompare t u <= 0 ->
                localeCompare s u <= 0.

Lemma compareMostBad_total (a b : Stat.t) :
  0 < compareMostBad localeCompare a b -> compareMostBad localeCompare b a <= 0.
Proof.
  intros H. change (before (compareMostBad localeCompare) b a).
  apply compareMostBad_before.
  assert (Hn : ~ mostBadFirst localeCompare a b).
  { rewrite <- compareMostBad_before. unfold before. lia. }
  unfold mostBadFirst in *.
  pose proof (localeCompare_total (SectionDef.title (Stat.section a))
                                  (SectionDef.title (Stat.section b))).
  lia.
Qed.

Lemma compareMostBad_trans (a b c : Stat.t) :
  compareMostBad localeCompare a b <= 0 -> compareMostBad localeCompare b c <= 0 ->
  compareMostBad localeCompare a c <= 0.
Proof.
  intros H1 H2.
  apply (compareMostBad_before a b) in H1. apply (compareMostBad_before b c) in H2.
  apply (compareMostBad_before a c). unfold mostBadFirst in *.
  pose proof (localeCompare_trans (SectionDef.title (Stat.section a))
                (SectionDef.title (Stat.section b))
                (SectionDef.title (Stat.section c))).
  lia.
Qed.

(** C6.  In the "MOST_BAD" mode the result lists the included sections,
    each once per occurrence, so that every section stands before every
    later one in the order: more out-of-range rows first, on equal counts
    more rows first, on equal row counts the title in ascending collation
    order.  Sections that tie on all three keys keep the order of the
    catalog, and sorting the result again returns the same list. *)
Theorem visibleSections_most_bad_first (sectionStats : list Stat.t)
    (sectionScope : SectionScope) (query : string) :
  let included :=
    List.filter (sectionVisible sectionScope (toLowerCase (trim query)))
                sectionStats in
  let out := visibleSections localeCompare sectionStats sectionScope query MOST_BAD in
  out ≡ₚ included /\
  StronglySorted (mostBadFirst localeCompare) out /\
  (forall a, filter (tied (compareMostBad localeCompare) a) out
             = filter (tied (compareMostBad localeCompare) a) included) /\
  sort (compareMostBad localeCompare) out = out.
Proof.
  intros included out. unfold out, visibleSections. fold included.
  pose proof (sort_sorted _ compareMostBad_total compareMostBad_trans included)
    as Hsorted.
  split; [apply sort_Permutation|]. split; [|split].
  - clear -Hsorted. induction Hsorted as [|x l Hl IH Hx]; constructor; [exact IH|].
    eapply Forall_impl; [exact Hx|]. intros y. apply compareMostBad_before.
  - intros a. apply sort_tied. exact compareMostBad_trans.
  - apply sort_sorted_id. exact Hsorted.
Qed.
End MostBad.

Lemma codeUnitCompare_le (a b : string) :
  codeUnitCompare a b <= 0 <-> a = b \/ String_as_OT.lt a b.
Proof.
  unfold codeUnitCompare.
  destruct (String.compare a b) eqn:E.
  - apply String_as_OT.cmp_eq in E. split; [now left | lia].
  - apply String_as_OT.cmp_lt in E. split; [now right | lia].
  - split; [lia|]. intros [->|H].
    + assert (String.compare b b = Eq) as E2 by now apply String_as_OT.cmp_eq.
      congruence.
    + apply String_as_OT.cmp_lt in H. unfold String_as_OT.cmp in H. congruence.
Qed.

Lemma codeUnitCompare_total (a b : string) :
  0 < codeUnitCompare a b -> codeUnitCompare b a <= 0.
Proof.
  unfold codeUnitCompare. rewrite (String.compare_antisym b a).
  destruct (String.compare a b); simpl; lia.
Qed.

Lemma codeUnitCompare_trans (a b c : string) :
  codeUnitCompare a b <= 0 -> codeUnitCompare b c <= 0 -> codeUnitCompare a c <= 0.
Proof.
  rewrite !codeUnitCompare_le. intros [->|H1] [->|H2]; auto.
  right. eapply String_as_OT.lt_trans; eassumption.
Qed.

(** Three sections: "B" and "A" tie on two out-of-range rows of three and
    are ordered by title; "C" has more out-of-range rows and comes first. *)
Lemma visibleSections_most_bad_first_witness :
  StronglySorted (mostBadFirst codeUnitCompare)
    (visibleSections codeUnitCompare
       [statOf "B" 2 3; statOf "A" 2 3; statOf "C" 3 3] S_ALL "" MOST_BAD).
Proof.
  apply (visibleSections_most_bad_first codeUnitCompare
           codeUnitCompare_total codeUnitCompare_trans
           [statOf "B" 2 3; statOf "A" 2 3; statOf "C" 3 3] S_ALL "").
Defined.

Example visibleSections_most_bad_order :
  map (fun x => SectionDef.title (Stat.section x))
    (visibleSections codeUnitCompare
       [statOf "B" 2 3; statOf "A" 2 3; statOf "C" 3 3; statOf "D" 2 4] S_ALL "" MOST_BAD)
  = ["C"; "D"; "A"; "B"].
Proof. reflexivity. Qed.

(** ** C3: the value extractor *)





(** ** C8: no operation throws *)

Lemma Checked_classify (value : number) (range : Range.t) :
  Checked.classify value (Some range) = Normal (classify value range).
Proof.
  unfold Checked.classify, classify. simpl.
  destruct (num_le value (Range.min range)); [reflexivity|].
  destruct (num_ge value (Range.max range)); reflexivity.
Qed.

Lemma Checked_computedRow (s : SectionDef.t) (r : Row) :
  Checked.computedRow s r = Normal (computedRow s r).
Proof.
  unfold Checked.computedRow, computedRow.
  assert (E : orElse (r !! "Position") (Some "") = Some (default "" (r !! "Position"))).
  { destruct (r !! "Position") as [p|]; simpl; [|reflexivity].
    destruct (String.eqb_spec p ""); [now subst|reflexivity]. }
  rewrite E. simpl.
  destruct (String.eqb _ ""); [reflexivity|].
  destruct (getTarget _ _) as [target|]; [|reflexivity].
  destruct (parsePercent _) as [value|]; [|reflexivity].
  now rewrite Checked_classify.
Qed.

Lemma Checked_sectionRows (s : SectionDef.t) (rawRows : list Row) :
  Checked.sectionRows s rawRows = Normal (sectionRows s rawRows).
Proof.
  unfold Checked.sectionRows, sectionRows.
  match goal with
  | |- foldl ?F (Normal ?a) _ = Normal (foldl ?G ?a _) =>
      enough (H : forall acc,
                foldl F (Normal acc) rawRows = Normal (foldl G acc rawRows))
        by apply H
  end.
  induction rawRows as [|r rawRows IH]; intros acc; simpl; [reflexivity|].
  rewrite Checked_computedRow. simpl. apply IH.
Qed.

Lemma Checked_computed (SECTIONS : list SectionDef.t) (rawRows : list Row) :
  Checked.computed SECTIONS rawRows = Normal (computed SECTIONS rawRows).
Proof.
  unfold Checked.computed, computed.
  match goal with
  | |- foldl ?F (Normal ?a) _ = Normal (foldl ?G ?a _) =>
      enough (H : forall m,
                foldl F (Normal m) SECTIONS = Normal (foldl G m SECTIONS))
        by apply H
  end.
  induction SECTIONS as [|s l IH]; intros m; simpl; [reflexivity|].
  rewrite Checked_sectionRows. simpl. apply IH.
Qed.

Lemma Checked_sectionStats (SECTIONS : list SectionDef.t)
    (cmp : gmap string (list ComputedRow.t)) :
  Checked.sectionStats SECTIONS cmp = Normal (sectionStats SECTIONS cmp).
Proof.
  unfold Checked.sectionStats, sectionStats.
  induction SECTIONS as [|s l IH]; simpl; [reflexivity|].
  rewrite IH. destruct (cmp !! SectionDef.id s); reflexivity.
Qed.

Lemma parsePercent_finite (value : option string) (n : number) :
  parsePercent value = Some n -> exists q, n = Fin q.
Proof.
  unfold parsePercent. destruct value as [v|]; [|discriminate].
  destruct (_ || _); [discriminate|].
  destruct (Number _) as [q| | |]; simpl; try discriminate.
  intros [= <-]. now exists q.
Qed.

Lemma len_omap_le {A B : Type} (f : A -> option B) (l : list A) :
  len (omap f l) <= len l.
Proof.
  unfold len. induction l as [|x l IH]; simpl; [reflexivity|].
  destruct (f x); simpl length;
    change (list_omap _ _ f l) with (omap f l); lia.
Qed.

(** Whatever [computed] holds under a key is the sequence of some section. *)
Lemma computed_lookup_Some (SECTIONS : list SectionDef.t) (rawRows : list Row)
    (k : string) (rows : list ComputedRow.t) :
  computed SECTIONS rawRows !! k = Some rows ->
  exists s, s ∈ SECTIONS /\ rows = sectionRows s rawRows.
Proof.
  unfold computed.
  enough (H : forall m : gmap string (list ComputedRow.t),
    foldl (fun map section =>
             <[SectionDef.id section := sectionRows section rawRows]> map)
          m SECTIONS !! k = Some rows ->
    m !! k = Some rows \/ exists s, s ∈ SECTIONS /\ rows = sectionRows s rawRows).
  { intros Hk. destruct (H _ Hk) as [E|E]; [|exact E].
    rewrite lookup_empty in E. discriminate. }
  induction SECTIONS as [|s l IH]; intros m Hk; simpl in *; [now left|].
  destruct (IH _ Hk) as [E|(s' & Hs' & E)].
  - rewrite lookup_insert in E. destruct (decide (SectionDef.id s = k)).
    + injection E as <-. right. exists s. split; [left|reflexivity].
    + now left.
  - right. exists s'. split; [now right|exact E].
Qed.

Lemma sectionStats_rows_le (SECTIONS : list SectionDef.t) (rawRows : list Row)
    (x : Stat.t) :
  x ∈ sectionStats SECTIONS (computed SECTIONS rawRows) ->
  len (Stat.rows x) <= len rawRows.
Proof.
  unfold sectionStats. intros Hx. apply list_elem_of_fmap in Hx as (s & -> & _).
  simpl. destruct (computed SECTIONS rawRows !! SectionDef.id s) as [rows|] eqn:E;
    simpl; [|apply len_nonneg].
  apply computed_lookup_Some in E as (s' & _ & ->).
  rewrite sectionRows_omap. apply len_omap_le.
Qed.

Lemma sumZ_bounds {A : Type} (f g : A -> Z) (B : Z) (l : list A) :
  (forall x, x ∈ l -> 0 <= f x <= g x /\ g x <= B) ->
  0 <= sumZ (map f l) <= sumZ (map g l) /\ sumZ (map g l) <= len l * B.
Proof.
  induction l as [|x l IH]; intros H; simpl; [unfold len; simpl; lia|].
  rewrite len_cons. destruct (H x) as [H1 H2]; [left|].
  destruct IH as [H3 H4]; [intros y Hy; apply H; now right|]. lia.
Qed.

Lemma len_map {A B : Type} (f : A -> B) (l : list A) : len (map f l) = len l.
Proof. unfold len. now rewrite length_map. Qed.

(** C8, at the input where the code departs from it.  The section
    "Fold to 3-bet" has no target for the label "toString", which is the
    anomalous condition of a missing target mapping.  The loop body raises
    nothing, but it does not take the skip either: it completes with a GOOD
    row, and the pass counts the row as in range, with percentage 100. *)
Theorem pipeline_inherited_label :
  let row := ComputedRow.mk "toString" None (Fin 70) inheritedMember
                            GOOD "balanced" in
  SectionDef.targetsByPosition fold3bet !! "toString" = None /\
  Checked.computedRow fold3bet (rawRow "toString" "70%") = Normal (Some row) /\
  Checked.computedRow fold3bet (rawRow "toString" "70%") <> Normal None /\
  exists t,
    Checked.pipeline [fold3bet] [rawRow "toString" "70%"]
    = Normal ([Stat.mk fold3bet [row] 1 0 (Fin 100)], t)
    /\ Totals.totalRows t = 1 /\ Totals.totalGood t = 1.
Proof.
  intros row. split; [reflexivity|].
  split; [vm_compute; reflexivity|].
  split; [vm_compute; discriminate|].
  eexists. split; [vm_compute; reflexivity|].
  split; reflexivity.
Qed.

(** X22.  A pass over any catalog and any raw rows completes without a
    [TypeError]: every receiver is defined where it is used, also when the
    target is an inherited member, and the pass yields the statistics and
    totals of the embedding.  The extractor answers with absent or with a
    finite number.  A row with an empty position label, with a label that is
    neither a key of the targets nor the name of a member of
    [Object.prototype], or with a missing or unparsable cell makes the loop
    body complete with a skip.  While the number of classified cells stays
    below 2^53, every percentage is a finite number, never [NaN]; and with no
    raw row every section has no rows, zero counts and percentage 0.  The
    view selector has no receiver that can be [undefined]; on an empty input
    it returns the empty list. *)
Theorem pipeline_completes (SECTIONS : list SectionDef.t) (rawRows : list Row) :
  let stats := sectionStats SECTIONS (computed SECTIONS rawRows) in
  Checked.pipeline SECTIONS rawRows = Normal (stats, totals stats) /\
  (forall value, parsePercent value = None
                 \/ exists q, parsePercent value = Some (Fin q)) /\
  (forall s r,
     trim (default "" (r !! "Position")) = ""
     \/ (SectionDef.targetsByPosition s !! trim (default "" (r !! "Position"))
           = None
         /\ trim (default "" (r !! "Position")) ∉ objectPrototypeMembers)
     \/ parsePercent (r !! SectionDef.column s) = None ->
     Checked.computedRow s r = Normal None) /\
  (len SECTIONS * len rawRows < 2 ^ 53 ->
     (forall x, x ∈ stats -> isFinite (Stat.pctGood x) = true) /\
     isFinite (Totals.pctGood (totals stats)) = true /\
     isFinite (Totals.pctGoodStats (totals stats)) = true) /\
  (rawRows = [] ->
     forall x, x ∈ stats ->
       Stat.rows x = [] /\ Stat.good x = 0 /\ Stat.bad x = 0
       /\ Stat.pctGood x = Fin 0) /\
  (forall localeCompare sectionScope query sortMode,
     visibleSections localeCompare [] sectionScope query sortMode = []) /\
  (forall globalRowFilter localFilter,
     rowFilterApply globalRowFilter [] localFilter = []).
Proof.
  intros stats. split; [|split; [|split; [|split; [|split; [|split]]]]];
    [| | | | |intros ? ? ? []; reflexivity|intros [] []; reflexivity].
  - unfold Checked.pipeline. rewrite Checked_computed. simpl.
    rewrite Checked_sectionStats. reflexivity.
  - intros value. destruct (parsePercent value) as [n|] eqn:E; [right|now left].
    apply parsePercent_finite in E as [q ->]. now exists q.
  - intros s r Hskip. rewrite Checked_computedRow. f_equal.
    apply computedRow_None. now rewrite getTarget_None.
  - intros Hsize.
    assert (Hrows : forall x, x ∈ stats -> len (Stat.rows x) <= len rawRows)
      by apply sectionStats_rows_le.
    assert (Hx : forall x, x ∈ stats ->
              0 <= Stat.good x <= len (Stat.rows x)
              /\ len (Stat.rows x) <= len rawRows).
    { intros x Hin. split; [|now apply Hrows].
      apply sectionStats_elem in Hin.
      destruct (sectionStat_counts (Stat.section x) (Stat.rows x))
        as (Hg & _ & _ & Hb & _).
      rewrite <- Hin in Hg. lia. }
    pose proof (len_nonneg rawRows) as Hr0. pose proof (len_nonneg SECTIONS) as Hs0.
    split; [|split].
    + intros x Hin.
      pose proof (sectionStats_elem _ _ x Hin) as Ex.
      destruct (sectionStat_counts (Stat.section x) (Stat.rows x))
        as (_ & _ & _ & _ & Hf).
      rewrite <- Ex in Hf.
      apply Hf. specialize (Hrows x Hin).
      assert (1 <= len SECTIONS).
      { unfold stats, sectionStats in Hin.
        destruct SECTIONS; [inversion Hin|]. rewrite len_cons.
        pose proof (len_nonneg SECTIONS). lia. }
      nia.
    + destruct (sumZ_bounds Stat.good (fun x => len (Stat.rows x)) (len rawRows)
                  stats Hx) as [H1 H2].
      unfold totals. simpl. rewrite !foldl_add_sumZ, !Z.add_0_l.
      assert (Hl : len stats = len SECTIONS) by apply len_map.
      rewrite Hl in H2.
      destruct (percentOf_finite (sumZ (map Stat.good stats))
                  (sumZ (map (fun x => len (Stat.rows x)) stats))) as [q ->];
        [lia | lia | reflexivity].
    + unfold totals. simpl. now rewrite percentOf_zero.
  - intros -> x Hin. unfold stats, sectionStats in Hin.
    apply list_elem_of_fmap in Hin as (s & -> & _).
    destruct (computed SECTIONS [] !! SectionDef.id s) as [rows|] eqn:E; simpl.
    + apply computed_lookup_Some in E as (s' & _ & ->). now cbn.
    + now cbn.
Qed.

(** Two sections over three raw rows: six cells, and every percentage of the
    pass is finite.  A row without a position is skipped, and without raw
    rows the percentage of a section is 0. *)
Lemma pipeline_completes_witness :
  let stats := sectionStats [fold3bet; vpip] (computed [fold3bet; vpip] raw3) in
  ((forall x, x ∈ stats -> isFinite (Stat.pctGood x) = true) /\
   isFinite (Totals.pctGood (totals stats)) = true /\
   isFinite (Totals.pctGoodStats (totals stats)) = true) /\
  Checked.computedRow fold3bet (rawRow "" "45%") = Normal None /\
  (forall x, x ∈ sectionStats [fold3bet] (computed [fold3bet] []) ->
     Stat.pctGood x = Fin 0).
Proof.
  intros stats. split; [|split].
  - apply (pipeline_completes [fold3bet; vpip] raw3). reflexivity.
  - apply (pipeline_completes [fold3bet] []). left. reflexivity.
  - intros x Hx.
    apply (proj1 (proj2 (proj2 (proj2 (proj2 (pipeline_completes [fold3bet] [])))))
             eq_refl x Hx).
Defined.

(** The end-to-end scenario of the specification: the row with position
    "Button" and cell "45%" gives one LOW row with action "tighten", and the
    section has 1 row, 0 GOOD, 1 out of range and percentage 0. *)
Example end_to_end_scenario :
  Checked.pipeline [fold3bet] [rawRow "Button" "45%"]
  = Normal
      ([Stat.mk fold3bet
          [ComputedRow.mk "Button" None (Fin 45) (Range.mk (Fin 50) (Fin 65))
                          LOW "tighten"]
          0 1 (Fin 0)],
       Totals.mk 1 0 1 (Fin 0) 1 1 1 0 1 (Fin 0)).
Proof. reflexivity. Qed.

(** * Further properties *)

(** ** Trimming and letter case *)

Lemma trimEnd_cons_nonspace (c : ascii) (s : string) :
  isWhiteSpace c = false -> exists t, trimEnd (String c s) = String c t.
Proof.
  intros Hc. simpl. destruct (trimEnd s); [rewrite Hc|]; eauto.
Qed.

Lemma trimStart_head (s : string) :
  trimStart s = "" \/
  exists c t, trimStart s = String c t /\ isWhiteSpace c = false.
Proof.
  induction s as [|c s IH]; [now left|]. simpl.
  destruct (isWhiteSpace c) eqn:E; [exact IH|]. right. eauto.
Qed.

Lemma trimStart_nonspace (c : ascii) (s : string) :
  isWhiteSpace c = false -> trimStart (String c s) = String c s.
Proof. intros Hc. simpl. now rewrite Hc. Qed.

Lemma trimEnd_idem (s : string) : trimEnd (trimEnd s) = trimEnd s.
Proof.
  induction s as [|c s IH]; [reflexivity|]. simpl.
  destruct (trimEnd s) as [|c' t] eqn:E.
  - destruct (isWhiteSpace c) eqn:Ec; [reflexivity|]. simpl. now rewrite Ec.
  - simpl. simpl in IH. destruct (trimEnd t) as [|c'' t'] eqn:Et.
    + destruct (isWhiteSpace c') eqn:Ec'; [discriminate|]. now rewrite IH.
    + now rewrite IH.
Qed.

(** A trimmed text is empty or begins with a character that is not white
    space. *)
Lemma trim_head (s : string) :
  trim s = "" \/ exists c t, trim s = String c t /\ isWhiteSpace c = false.
Proof.
  unfold trim. destruct (trimStart_head s) as [->|(c & t & -> & Hc)]; [now left|].
  right. destruct (trimEnd_cons_nonspace c t Hc) as [t' ->]. eauto.
Qed.

(** Trimming twice is trimming once. *)
Lemma trim_idem (s : string) : trim (trim s) = trim s.
Proof.
  destruct (trim_head s) as [E|(c & t & E & Hc)].
  - now rewrite E.
  - unfold trim at 1. rewrite E, trimStart_nonspace by assumption.
    rewrite <- E. unfold trim. apply trimEnd_idem.
Qed.

(** ** The rows of [computed] *)

(** What the loop body builds when it keeps a row. *)
Lemma computedRow_Some (s : SectionDef.t) (r : Row) (cr : ComputedRow.t) :
  computedRow s r = Some cr ->
  ComputedRow.position cr = trim (default "" (r !! "Position")) /\
  ComputedRow.position cr <> "" /\
  ComputedRow.hands cr = r !! "Hands" /\
  getTarget (SectionDef.targetsByPosition s) (ComputedRow.position cr)
    = Some (ComputedRow.target cr) /\
  parsePercent (r !! SectionDef.column s) = Some (ComputedRow.value cr) /\
  ComputedRow.result cr = classify (ComputedRow.value cr) (ComputedRow.target cr) /\
  ComputedRow.recAction cr = actionOf s (ComputedRow.result cr).
Proof.
  unfold computedRow.
  destruct (String.eqb_spec (trim (default "" (r !! "Position"))) "") as [E|E];
    [discriminate|].
  destruct (getTarget _ _) as [target|] eqn:Et; [|discriminate].
  destruct (parsePercent _) as [value|] eqn:Ev; [|discriminate].
  intros [= <-]. simpl. repeat split; assumption.
Qed.

(** X1.  Every row stored in [computed], under whatever key, was built for
    some section of the catalog from what the read
    [targetsByPosition[position]] finds for the row's position: the target
    that the section has for this label, or, when the section has none and
    the label is the name of a member of [Object.prototype], that inherited
    member, and then the row is GOOD.  Its position is trimmed and not empty,
    its value is finite, a LOW row has [value <= min], a HIGH row has
    [min < value] or an undefined order and [value >= max], a GOOD row lies
    strictly between bounds that are numbers, and its recommended action is
    that section's action for its outcome. *)
Theorem computed_rows_invariant (SECTIONS : list SectionDef.t)
    (rawRows : list Row) (k : string) (rows : list ComputedRow.t)
    (cr : ComputedRow.t) :
  computed SECTIONS rawRows !! k = Some rows -> cr ∈ rows ->
  exists s, s ∈ SECTIONS /\
    (SectionDef.targetsByPosition s !! ComputedRow.position cr
       = Some (ComputedRow.target cr)
     \/ (SectionDef.targetsByPosition s !! ComputedRow.position cr = None
         /\ ComputedRow.position cr ∈ objectPrototypeMembers
         /\ ComputedRow.target cr = inheritedMember
         /\ ComputedRow.result cr = GOOD)) /\
    ComputedRow.recAction cr = actionOf s (ComputedRow.result cr) /\
    ComputedRow.position cr <> "" /\
    trim (ComputedRow.position cr) = ComputedRow.position cr /\
    (exists q, ComputedRow.value cr = Fin q) /\
    match ComputedRow.result cr with
    | LOW => (ComputedRow.value cr <= Range.min (ComputedRow.target cr))%num
    | HIGH => ~ (ComputedRow.value cr <= Range.min (ComputedRow.target cr))%num
              /\ (Range.max (ComputedRow.target cr) <= ComputedRow.value cr)%num
    | GOOD => ~ (ComputedRow.value cr <= Range.min (ComputedRow.target cr))%num
              /\ ~ (Range.max (ComputedRow.target cr) <= ComputedRow.value cr)%num
              /\ ((Range.min (ComputedRow.target cr)
                   <= Range.max (ComputedRow.target cr))%num ->
                  (Range.min (ComputedRow.target cr) < ComputedRow.value cr)%num
                  /\ (ComputedRow.value cr < Range.max (ComputedRow.target cr))%num)
    end.
Proof.
  intros Hk Hcr.
  apply computed_lookup_Some in Hk as (s & Hs & ->).
  rewrite sectionRows_omap in Hcr.
  apply list_elem_of_omap in Hcr as (r & _ & Hr).
  apply computedRow_Some in Hr as (Hp & Hne & _ & Ht & Hv & Hres & Ha).
  exists s. split; [exact Hs|].
  split.
  { apply getTarget_Some in Ht as [Ht|(Hnone & Hin & Ht)]; [now left|].
    right. split; [exact Hnone|]. split; [exact Hin|]. split; [exact Ht|].
    rewrite Hres, Ht. apply classify_inheritedMember. }
  split; [exact Ha|].
  split; [exact Hne|]. split; [rewrite Hp; apply trim_idem|].
  pose proof (parsePercent_finite _ _ Hv) as [q Hq].
  split; [now exists q|].
  rewrite Hres. unfold classify, num_ge.
  destruct (num_le (ComputedRow.value cr) (Range.min (ComputedRow.target cr))) eqn:E1.
  - now apply num_le_iff.
  - apply num_le_false_iff in E1.
    destruct (num_le (Range.max (ComputedRow.target cr)) (ComputedRow.value cr)) eqn:E2.
    + split; [exact E1 | now apply num_le_iff].
    + apply num_le_false_iff in E2. split; [exact E1|]. split; [exact E2|].
      intros Hmm. destruct (le_not_NaN _ _ Hmm) as [Hmin Hmax].
      assert (Hval : ComputedRow.value cr <> NaN) by (rewrite Hq; discriminate).
      split; split; try assumption; now apply le_total.
Qed.

(** The row "Button", "55%" of the example is kept for "Fold to 3-bet" as a
    GOOD row between 50 and 65, built from the section's own target. *)
Lemma computed_rows_invariant_witness :
  exists s, s ∈ [fold3bet] /\
    SectionDef.targetsByPosition s !! "Button" = Some (Range.mk (Fin 50) (Fin 65)).
Proof.
  destruct (computed_rows_invariant [fold3bet] [rawRow "Button" "55%"] "fold3bet"
              [ComputedRow.mk "Button" None (Fin 55) (Range.mk (Fin 50) (Fin 65))
                              GOOD "balanced"]
              (ComputedRow.mk "Button" None (Fin 55) (Range.mk (Fin 50) (Fin 65))
                              GOOD "balanced"))
    as (s & Hs & [Ht|(_ & _ & Ht & _)] & _);
    [reflexivity | apply list_elem_of_here | | discriminate Ht].
  exists s. split; assumption.
Defined.

(** ** Catalog entries that share an id *)

Lemma computed_last_wins (l1 l2 : list SectionDef.t) (s : SectionDef.t)
    (rawRows : list Row) :
  SectionDef.id s ∉ map SectionDef.id l2 ->
  computed (l1 ++ s :: l2) rawRows !! SectionDef.id s
  = Some (sectionRows s rawRows).
Proof.
  intros Hout. unfold computed. rewrite foldl_app. simpl.
  rewrite computed_lookup_other by assumption. apply lookup_insert_eq.
Qed.

(** X2.  [computed] keeps one sequence per id, the one of the last catalog
    entry with that id: every entry of [sectionStats] whose section has the id
    of that last entry carries the rows classified for the last entry, against
    the last entry's targets and column. *)
Theorem sectionStats_shared_id (l1 l2 : list SectionDef.t) (s : SectionDef.t)
    (rawRows : list Row) (x : Stat.t) :
  SectionDef.id s ∉ map SectionDef.id l2 ->
  x ∈ sectionStats (l1 ++ s :: l2) (computed (l1 ++ s :: l2) rawRows) ->
  SectionDef.id (Stat.section x) = SectionDef.id s ->
  Stat.rows x = omap (computedRow s) rawRows.
Proof.
  intros Hout Hx Hid. unfold sectionStats in Hx.
  apply list_elem_of_fmap in Hx as (s0 & -> & _). simpl in *.
  rewrite Hid, computed_last_wins by assumption. simpl.
  apply sectionRows_omap.
Qed.

(** Two entries with the id "fold3bet": the first reads 55 as GOOD on its own
    target, yet its statistics hold the row classified HIGH against the
    second's target. *)
Lemma sectionStats_shared_id_witness :
  classify (Fin 55) (Range.mk (Fin 50) (Fin 65)) = GOOD /\
  map ComputedRow.result
    (Stat.rows (sectionStat fold3bet
       (default [] (computed [fold3bet; fold3betTight] [rawRow "Button" "55%"]
                      !! "fold3bet"))))
  = [HIGH].
Proof.
  split; [reflexivity|].
  rewrite (sectionStats_shared_id [fold3bet] [] fold3betTight
             [rawRow "Button" "55%"]
             (sectionStat fold3bet
                (default [] (computed [fold3bet; fold3betTight]
                               [rawRow "Button" "55%"] !! "fold3bet")))).
  - reflexivity.
  - simpl. apply not_elem_of_nil.
  - simpl. apply list_elem_of_here.
  - reflexivity.
Defined.

(** ** The range of a percentage *)

Lemma nearest_even_le_int (n d K : Z) :
  0 < d -> n <= K * d -> nearest_even n d <= K.
Proof.
  intros Hd Hn. unfold nearest_even.
  pose proof (Z.div_mod n d ltac:(lia)) as Hdm.
  pose proof (Z.mod_pos_bound n d Hd) as Hm.
  assert (Hq : n / d <= K) by (apply Z.div_le_upper_bound; lia).
  destruct (Z.eq_dec (n / d) K) as [E|E].
  - assert (Hz : n mod d = 0) by nia.
    rewrite Hz. simpl. destruct d; lia.
  - destruct (2 * (n mod d) ?= d); [destruct (Z.even (n / d))| |]; lia.
Qed.

(** A non-negative rational that is at most the integer [K], [K < 2^52],
    rounds to a finite number between 0 and [K]. *)
Lemma round64_range (q : Q) (K : Z) :
  0 <= Qnum q -> 0 < K < 2 ^ 52 -> Qnum q <= K * Z.pos (Qden q) ->
  exists q', round64 q = Fin q' /\ (0 <= q')%Q /\ (q' <= inject_Z K)%Q.
Proof.
  intros Hn HK Hq. unfold round64.
  destruct (Qnum q =? 0) eqn:E0.
  { exists 0%Q. split; [reflexivity|]. split; [apply Qle_refl|].
    unfold Qle. simpl. lia. }
  apply Z.eqb_neq in E0.
  rewrite (Z.abs_eq (Qnum q)) by lia.
  set (a := Qnum q) in *. set (d := Z.pos (Qden q)) in *.
  assert (Ha : 0 < a) by lia. assert (Hd : 0 < d) by (unfold d; lia).
  assert (Hs : Z.sgn a = 1) by lia. rewrite Hs.
  assert (He : binade a d <= 52).
  { pose proof (binade_le a d) as Hb.
    assert (Hl : Z.log2 a <= Z.log2 (K * d)) by (apply Z.log2_le_mono; lia).
    pose proof (Z.log2_mul_above K d ltac:(lia) ltac:(lia)) as Hab.
    assert (Z.log2 K < 52) by (apply Z.log2_lt_pow2; lia). lia. }
  set (p := Z.max (binade a d - 52) (-1074)) in *.
  assert (Hp : p <= 0) by (unfold p; lia).
  destruct (0 <=? p) eqn:Ep.
  - apply Z.leb_le in Ep. assert (p = 0) as -> by lia.
    change (2 ^ 0) with 1. rewrite !Z.mul_1_r, andb_true_l.
    pose proof (nearest_even_le_int a d K Hd Hq) as Hm.
    pose proof (nearest_even_ge a d) as Hge.
    assert (0 <= a / d) by (apply Z.div_pos; lia).
    set (m := nearest_even a d) in *.
    assert (2 ^ 52 < 2 ^ 1024) by (apply Z.pow_lt_mono_r; lia).
    destruct (2 ^ 1024 <=? m) eqn:Eo; [apply Z.leb_le in Eo; lia|].
    eexists. split; [reflexivity|]. unfold Qle. simpl. lia.
  - apply Z.leb_gt in Ep. rewrite andb_false_l.
    assert (Hpp : 0 < 2 ^ (- p)) by (apply Z.pow_pos_nonneg; lia).
    pose proof (nearest_even_le_int (a * 2 ^ (- p)) d (K * 2 ^ (- p)) Hd
                  ltac:(nia)) as Hm.
    pose proof (nearest_even_ge (a * 2 ^ (- p)) d) as Hge.
    assert (0 <= a * 2 ^ (- p) / d) by (apply Z.div_pos; nia).
    set (m := nearest_even (a * 2 ^ (- p)) d) in *.
    eexists. split; [reflexivity|].
    rewrite Qred_correct. unfold Qle. simpl.
    rewrite Z2Pos.id by assumption. lia.
Qed.

(** A part of a whole below 2^53 has a percentage between 0 and 100. *)
Lemma percentOf_range (part whole : Z) :
  0 <= part <= whole -> whole < 2 ^ 53 ->
  exists q, percentOf part whole = Fin q /\ (0 <= q)%Q /\ (q <= 100)%Q.
Proof.
  intros Hp Hw. unfold percentOf.
  destruct (whole =? 0) eqn:E0.
  { exists 0%Q. split; [reflexivity|]. split; [apply Qle_refl|]. discriminate. }
  apply Z.eqb_neq in E0.
  rewrite !of_Z_exact by lia.
  destruct whole as [|w|w]; try lia.
  unfold num_div.
  replace (Qeq_bool (inject_Z (Z.pos w)) 0) with false by reflexivity.
  destruct (round64_range (inject_Z part / inject_Z (Z.pos w)) 1)
    as (q1 & -> & H0 & H1).
  { simpl. lia. } { split; [lia|reflexivity]. } { simpl. lia. }
  unfold num_mul.
  destruct (round64_range (q1 * 100) 100) as (q2 & -> & H2 & H3).
  { simpl. unfold Qle in H0. simpl in H0. lia. }
  { split; [lia|reflexivity]. }
  { simpl. unfold Qle in H1. simpl in H1. rewrite Pos2Z.inj_mul. lia. }
  exists q2. auto.
Qed.

Lemma round64_one (q : Q) : Qnum q = Z.pos (Qden q) -> round64 q = Fin 1.
Proof.
  intros Hq. unfold round64. rewrite Hq.
  set (d := Z.pos (Qden q)). assert (Hd : 0 < d) by (unfold d; lia).
  destruct (d =? 0) eqn:E0; [apply Z.eqb_eq in E0; lia|].
  rewrite (Z.abs_eq d) by lia.
  assert (Hb : binade d d = 0).
  { unfold binade. rewrite Z.sub_diag. simpl.
    rewrite Z.mul_1_r, Z.ltb_irrefl. reflexivity. }
  rewrite Hb. change (Z.max (0 - 52) (-1074)) with (-52).
  change (0 <=? -52) with false. cbv iota. rewrite andb_false_l.
  assert (Hm : nearest_even (d * 2 ^ (- -52)) d = 2 ^ 52).
  { unfold nearest_even. change (- -52) with 52.
    rewrite (Z.mul_comm d), Z.mod_mul, Z.div_mul by lia. reflexivity. }
  rewrite Hm. assert (Hs : Z.sgn d = 1) by lia. rewrite Hs. reflexivity.
Qed.

(** The whole of a whole is exactly 100 percent. *)
Lemma percentOf_all (whole : Z) :
  0 < whole < 2 ^ 53 -> percentOf whole whole = Fin 100.
Proof.
  intros Hw. unfold percentOf.
  destruct (whole =? 0) eqn:E0; [apply Z.eqb_eq in E0; lia|].
  rewrite of_Z_exact by lia.
  destruct whole as [|w|w]; try lia.
  unfold num_div.
  replace (Qeq_bool (inject_Z (Z.pos w)) 0) with false by reflexivity.
  rewrite round64_one by (simpl; lia). reflexivity.
Qed.

Lemma occurrences_all_good (rows : list ComputedRow.t) :
  Forall isGood rows -> occurrences GOOD rows = len rows.
Proof.
  induction 1 as [|r rows Hr _ IH]; [reflexivity|].
  rewrite len_cons. simpl. unfold isGood in Hr.
  destruct (decide (ComputedRow.result r = GOOD)); [lia|contradiction].
Qed.

Lemma occurrences_none_good (rows : list ComputedRow.t) :
  Forall isBad rows -> occurrences GOOD rows = 0.
Proof.
  induction 1 as [|r rows Hr _ IH]; [reflexivity|].
  simpl. unfold isBad in Hr.
  destruct (decide (ComputedRow.result r = GOOD)); [contradiction|lia].
Qed.

Lemma sectionStat_pctGood (s : SectionDef.t) (rows : list ComputedRow.t) :
  Stat.pctGood (sectionStat s rows) = percentOf (occurrences GOOD rows) (len rows).
Proof. simpl. now rewrite len_filter_isGood. Qed.

(** X3.  For every entry of [sectionStats] with fewer than 2^53 rows,
    [pctGood] is a number between 0 and 100; it is exactly 100 when there are
    rows and all of them are GOOD, and exactly 0 when no row is GOOD. *)
Theorem sectionStats_pctGood_range (SECTIONS : list SectionDef.t)
    (cmp : gmap string (list ComputedRow.t)) (x : Stat.t) :
  x ∈ sectionStats SECTIONS cmp -> len (Stat.rows x) < 2 ^ 53 ->
  (exists q, Stat.pctGood x = Fin q /\ (0 <= q)%Q /\ (q <= 100)%Q) /\
  (Stat.rows x <> [] -> Forall isGood (Stat.rows x) -> Stat.pctGood x = Fin 100) /\
  (Forall isBad (Stat.rows x) -> Stat.pctGood x = Fin 0).
Proof.
  intros Hx Hlen. apply sectionStats_elem in Hx.
  rewrite Hx, sectionStat_pctGood.
  destruct (sectionStat_counts (Stat.section x) (Stat.rows x))
    as (_ & _ & _ & Hb & _).
  split; [|split].
  - apply percentOf_range; assumption.
  - intros Hne Hall. rewrite occurrences_all_good by assumption.
    apply percentOf_all. split; [|assumption].
    pose proof (len_nonneg (Stat.rows x)).
    destruct (Z.eq_dec (len (Stat.rows x)) 0) as [E|E]; [|lia].
    apply len_zero in E. contradiction.
  - intros Hnone. rewrite occurrences_none_good by assumption.
    apply percentOf_zero.
Qed.

(** The section of the example has a percentage between 0 and 100. *)
Lemma sectionStats_pctGood_range_witness :
  exists q, Stat.pctGood (sectionStat fold3bet (sectionRows fold3bet raw3)) = Fin q
            /\ (0 <= q)%Q /\ (q <= 100)%Q.
Proof.
  apply (sectionStats_pctGood_range [fold3bet] (computed [fold3bet] raw3)
           (sectionStat fold3bet (sectionRows fold3bet raw3))).
  - vm_compute. constructor.
  - reflexivity.
Defined.

(** ** Relations between the totals *)

Lemma len_filter_mono {A : Type} (P Q : A -> Prop)
    `{!forall x, Decision (P x)} `{!forall x, Decision (Q x)} (l : list A) :
  (forall x, x ∈ l -> P x -> Q x) -> len (filter P l) <= len (filter Q l).
Proof.
  induction l as [|x l IH]; intros Hl; [reflexivity|].
  rewrite !filter_cons.
  assert (IH' : len (filter P l) <= len (filter Q l))
    by (apply IH; intros y Hy; apply Hl; now right).
  destruct (decide (P x)) as [Hp|Hp], (decide (Q x)) as [Hq|Hq];
    rewrite ?len_cons; try lia.
  exfalso. apply Hq, Hl; [left|assumption].
Qed.

Lemma len_filter_le {A : Type} (P : A -> Prop) `{!forall x, Decision (P x)}
    (l : list A) : 0 <= len (filter P l) <= len l.
Proof.
  unfold len. pose proof (length_filter P l). lia.
Qed.

Lemma len_filter_le_sum {A : Type} (f : A -> Z) (l : list A) :
  (forall x, x ∈ l -> 0 <= f x) ->
  len (filter (fun x => f x > 0) l) <= sumZ (map f l).
Proof.
  induction l as [|x l IH]; intros Hl; [reflexivity|].
  rewrite filter_cons. simpl.
  assert (IH' : len (filter (fun x => f x > 0) l) <= sumZ (map f l))
    by (apply IH; intros y Hy; apply Hl; now right).
  pose proof (Hl x ltac:(left)).
  destruct (decide (f x > 0)); rewrite ?len_cons; lia.
Qed.

(** Sums of the counts of the entries of [sectionStats]. *)
Lemma sectionStats_sums (SECTIONS : list SectionDef.t)
    (cmp : gmap string (list ComputedRow.t)) :
  let stats := sectionStats SECTIONS cmp in
  (forall x, x ∈ stats ->
     0 <= Stat.good x <= len (Stat.rows x)
     /\ Stat.bad x = len (Stat.rows x) - Stat.good x) /\
  0 <= sumZ (map Stat.good stats)
    <= sumZ (map (fun x => len (Stat.rows x)) stats) /\
  sumZ (map (fun x => len (Stat.rows x)) stats) - sumZ (map Stat.good stats)
  = sumZ (map Stat.bad stats).
Proof.
  intros stats.
  assert (Hwf : forall x, x ∈ stats ->
            0 <= Stat.good x <= len (Stat.rows x)
            /\ Stat.bad x = len (Stat.rows x) - Stat.good x).
  { intros x Hx. apply sectionStats_elem in Hx.
    destruct (sectionStat_counts (Stat.section x) (Stat.rows x))
      as (Hg & Hb & _ & Hr & _).
    rewrite <- Hx in Hg, Hb. lia. }
  split; [exact Hwf|]. split.
  - clearbody stats. induction stats as [|y l IH]; simpl; [lia|].
    destruct (Hwf y) as [Hy _]; [left|].
    assert (0 <= sumZ (map Stat.good l)
              <= sumZ (map (fun x => len (Stat.rows x)) l))
      by (apply IH; intros z Hz; apply Hwf; now right).
    lia.
  - apply sumZ_bad. intros x Hx. now destruct (Hwf x Hx).
Qed.

(** X4.  Over the statistics of all sections: the GOOD and out-of-range
    totals are not negative and add up to the row total; the number of
    sections with an out-of-range row is at most the number of sections with a
    row, which is at most the number of sections; there are at least as many
    out-of-range rows as sections with one, and at least as many rows as
    sections with a row. *)
Theorem totals_relations (SECTIONS : list SectionDef.t)
    (cmp : gmap string (list ComputedRow.t)) :
  let t := totals (sectionStats SECTIONS cmp) in
  Totals.totalGood t + Totals.totalBad t = Totals.totalRows t /\
  0 <= Totals.totalGood t /\ 0 <= Totals.totalBad t /\
  0 <= Totals.sectionsWithBad t <= Totals.sectionsWithData t /\
  Totals.sectionsWithData t <= len SECTIONS /\
  Totals.sectionsWithBad t <= Totals.totalBad t /\
  Totals.sectionsWithData t <= Totals.totalRows t.
Proof.
  intros t. destruct (sectionStats_sums SECTIONS cmp) as (Hwf & Hsum & Hbad).
  set (stats := sectionStats SECTIONS cmp) in *.
  assert (Hlen : len stats = len SECTIONS) by apply len_map.
  unfold t, totals. simpl. rewrite !foldl_add_sumZ, !Z.add_0_l.
  split; [lia|]. split; [lia|]. split; [lia|]. split; [split|].
  - apply len_filter_le.
  - apply len_filter_mono. intros x Hx. unfold hasBad, hasData.
    destruct (Hwf x Hx) as [H1 H2]. lia.
  - split; [|split].
    + rewrite <- Hlen. apply len_filter_le.
    + rewrite Hbad. apply (len_filter_le_sum Stat.bad).
      intros x Hx. destruct (Hwf x Hx) as [H1 H2]. lia.
    + apply (len_filter_le_sum (fun x => len (Stat.rows x))).
      intros x _. apply len_nonneg.
Qed.

(** X5.  While fewer than 2^53 rows are classified in all, the overall
    [pctGood] is a number between 0 and 100, exactly 100 when there is a row
    and every row of every section is GOOD. *)
Theorem totals_pctGood_range (SECTIONS : list SectionDef.t)
    (cmp : gmap string (list ComputedRow.t)) :
  let t := totals (sectionStats SECTIONS cmp) in
  Totals.totalRows t < 2 ^ 53 ->
  (exists q, Totals.pctGood t = Fin q /\ (0 <= q)%Q /\ (q <= 100)%Q) /\
  (0 < Totals.totalRows t -> Totals.totalBad t = 0 -> Totals.pctGood t = Fin 100).
Proof.
  intros t. destruct (sectionStats_sums SECTIONS cmp) as (_ & Hsum & _).
  unfold t, totals. simpl. rewrite !foldl_add_sumZ, !Z.add_0_l.
  intros Hlt. split.
  - apply percentOf_range; lia.
  - intros Hpos Hz.
    replace (sumZ (map Stat.good (sectionStats SECTIONS cmp)))
      with (sumZ (map (fun x => len (Stat.rows x)) (sectionStats SECTIONS cmp)))
      by lia.
    apply percentOf_all. lia.
Qed.

Lemma totals_pctGood_range_witness :
  exists q, Totals.pctGood (totals (sectionStats [fold3bet] (computed [fold3bet] raw3)))
            = Fin q /\ (0 <= q)%Q /\ (q <= 100)%Q.
Proof.
  apply (totals_pctGood_range [fold3bet] (computed [fold3bet] raw3)).
  reflexivity.
Defined.

(** ** Which sections are visible *)

Lemma query_match_iff (q : string) (a b c : bool) :
  (if String.eqb q "" then true else a || b || c) = true <->
  q = "" \/ a = true \/ b = true \/ c = true.
Proof.
  destruct (String.eqb_spec q "") as [E|E]; [tauto|].
  rewrite !orb_true_iff. tauto.
Qed.

Lemma sectionVisible_iff (sectionScope : SectionScope) (q : string) (x : Stat.t) :
  sectionVisible sectionScope q x = true <-> inScope sectionScope x /\ matchesQuery q x.
Proof.
  unfold sectionVisible, inScope, matchesQuery. destruct sectionScope; simpl.
  - rewrite query_match_iff. tauto.
  - destruct (Z.eqb_spec (Stat.bad x) 0) as [E|E].
    + split; [discriminate | tauto].
    + rewrite query_match_iff. tauto.
  - destruct (Z.eqb_spec (len (Stat.rows x)) 0) as [E|E].
    + apply len_zero in E. split; [discriminate | tauto].
    + rewrite query_match_iff. rewrite len_zero in E. tauto.
Qed.

Lemma visibleSections_elem (localeCompare : string -> string -> Z)
    (sectionStats : list Stat.t) (sectionScope : SectionScope)
    (query : string) (sortMode : SortMode) (x : Stat.t) :
  x ∈ visibleSections localeCompare sectionStats sectionScope query sortMode <->
  x ∈ sectionStats /\ inScope sectionScope x
  /\ matchesQuery (toLowerCase (trim query)) x.
Proof.
  assert (Hp : visibleSections localeCompare sectionStats sectionScope query sortMode
               ≡ₚ List.filter
                    (sectionVisible sectionScope (toLowerCase (trim query)))
                    sectionStats).
  { unfold visibleSections. destruct sortMode; apply sort_Permutation. }
  rewrite Hp, list_elem_of_In, filter_In, <- list_elem_of_In.
  now rewrite sectionVisible_iff.
Qed.

(** X6.  In both sort modes the visible sections are the entries of
    [sectionStats] that pass the scope selector and match the trimmed,
    lower-cased query, each as often as it occurs: no entry is invented,
    dropped or repeated by the sort.  With scope "ALL" and a blank query every
    entry is visible. *)
Theorem visibleSections_members (localeCompare : string -> string -> Z)
    (sectionStats : list Stat.t) (sectionScope : SectionScope)
    (query : string) (sortMode : SortMode) :
  let out := visibleSections localeCompare sectionStats sectionScope query sortMode in
  out ≡ₚ List.filter (sectionVisible sectionScope (toLowerCase (trim query)))
                     sectionStats /\
  (forall x, x ∈ out <->
     x ∈ sectionStats /\ inScope sectionScope x
     /\ matchesQuery (toLowerCase (trim query)) x) /\
  len out <= len sectionStats /\
  (sectionScope = S_ALL -> trim query = "" -> out ≡ₚ sectionStats).
Proof.
  intros out.
  assert (Hp : out ≡ₚ List.filter
                 (sectionVisible sectionScope (toLowerCase (trim query))) sectionStats).
  { unfold out, visibleSections. destruct sortMode; apply sort_Permutation. }
  split; [exact Hp|]. split; [|split].
  - intros x. apply visibleSections_elem.
  - unfold len. rewrite Hp. pose proof (List.filter_length_le
      (sectionVisible sectionScope (toLowerCase (trim query))) sectionStats). lia.
  - intros -> Hq. rewrite Hp, Hq. simpl.
    clear. induction sectionStats as [|x l IH]; [reflexivity|].
    simpl. now rewrite IH.
Qed.

Lemma visibleSections_members_witness :
  visibleSections codeUnitCompare [statOf "B" 2 3; statOf "A" 2 3] S_ALL "  "
                  MOST_BAD
  ≡ₚ [statOf "B" 2 3; statOf "A" 2 3].
Proof.
  apply (visibleSections_members codeUnitCompare [statOf "B" 2 3; statOf "A" 2 3]
           S_ALL "  " MOST_BAD); reflexivity.
Defined.

(** X7.  Among the entries of [sectionStats], every section visible under
    the scope "WITH_BAD" is visible under "WITH_DATA", and every section
    visible under "WITH_DATA" is visible under "ALL", for the same query and
    sort mode. *)
Theorem visibleSections_scope_nested (localeCompare : string -> string -> Z)
    (SECTIONS : list SectionDef.t) (cmp : gmap string (list ComputedRow.t))
    (query : string) (sortMode : SortMode) (x : Stat.t) :
  let stats := sectionStats SECTIONS cmp in
  (x ∈ visibleSections localeCompare stats WITH_BAD query sortMode ->
   x ∈ visibleSections localeCompare stats WITH_DATA query sortMode) /\
  (x ∈ visibleSections localeCompare stats WITH_DATA query sortMode ->
   x ∈ visibleSections localeCompare stats S_ALL query sortMode).
Proof.
  intros stats. split; intros Hx;
    apply visibleSections_elem in Hx as (Hin & Hs & Hq);
    apply visibleSections_elem; (split; [exact Hin|split; [|exact Hq]]);
    [|exact I].
  simpl in *. intros E. apply Hs.
  apply sectionStats_elem in Hin. rewrite Hin, E. reflexivity.
Qed.

(** The section of the example has out-of-range rows: it is visible under
    "WITH_BAD", hence under "WITH_DATA". *)
Lemma visibleSections_scope_nested_witness :
  sectionStat fold3bet (sectionRows fold3bet raw3)
  ∈ visibleSections codeUnitCompare
      (sectionStats [fold3bet] (computed [fold3bet] raw3)) WITH_DATA "" MOST_BAD.
Proof.
  apply (visibleSections_scope_nested codeUnitCompare [fold3bet]
           (computed [fold3bet] raw3) "" MOST_BAD).
  vm_compute. constructor.
Defined.

(** ** The alphabetical order *)

Section Alphabetical.
Variable localeCompare : string -> string -> Z.
Hypothesis localeCompare_total :
  forall s t, 0 < localeCompare s t -> localeCompare t s <= 0.
Hypothesis localeCompare_trans :
  forall s t u, localeCompare s t <= 0 -> localeCompare t u <= 0 ->
                localeCompare s u <= 0.

(** X8.  In the "A_Z" mode the visible sections stand in ascending collation
    order of their titles, every section before every later one; sections
    whose titles collate equal keep the order of the catalog, and sorting the
    result again returns the same list. *)
Theorem visibleSections_a_z (sectionStats : list Stat.t)
    (sectionScope : SectionScope) (query : string) :
  let included :=
    List.filter (sectionVisible sectionScope (toLowerCase (trim query)))
                sectionStats in
  let out := visibleSections localeCompare sectionStats sectionScope query A_Z in
  StronglySorted (titleFirst localeCompare) out /\
  (forall a, filter (tied (compareTitle localeCompare) a) out
             = filter (tied (compareTitle localeCompare) a) included) /\
  sort (compareTitle localeCompare) out = out.
Proof.
  intros included out. unfold out, visibleSections. fold included.
  assert (Htot : forall a b, 0 < compareTitle localeCompare a b ->
                             compareTitle localeCompare b a <= 0)
    by (intros a b; apply localeCompare_total).
  assert (Htr : forall a b c, compareTitle localeCompare a b <= 0 ->
                  compareTitle localeCompare b c <= 0 ->
                  compareTitle localeCompare a c <= 0)
    by (intros a b c; apply localeCompare_trans).
  pose proof (sort_sorted _ Htot Htr included) as Hsorted.
  split; [exact Hsorted|]. split.
  - intros a. now apply sort_tied.
  - now apply sort_sorted_id.
Qed.
End Alphabetical.

Lemma visibleSections_a_z_witness :
  StronglySorted (titleFirst codeUnitCompare)
    (visibleSections codeUnitCompare
       [statOf "B" 2 3; statOf "A" 2 3; statOf "C" 3 3] S_ALL "" A_Z).
Proof.
  apply (visibleSections_a_z codeUnitCompare
           codeUnitCompare_total codeUnitCompare_trans
           [statOf "B" 2 3; statOf "A" 2 3; statOf "C" 3 3] S_ALL "").
Defined.

(** ** The query *)

Lemma lowerChar_space (c : ascii) : isWhiteSpace (lowerChar c) = isWhiteSpace c.
Proof. destruct c as [[] [] [] [] [] [] [] []]; reflexivity. Qed.

Lemma lowerChar_idem (c : ascii) : lowerChar (lowerChar c) = lowerChar c.
Proof. destruct c as [[] [] [] [] [] [] [] []]; reflexivity. Qed.

Lemma toLowerCase_idem (s : string) : toLowerCase (toLowerCase s) = toLowerCase s.
Proof.
  induction s as [|c s IH]; [reflexivity|]. simpl. now rewrite lowerChar_idem, IH.
Qed.

Lemma trimStart_toLowerCase (s : string) :
  trimStart (toLowerCase s) = toLowerCase (trimStart s).
Proof.
  induction s as [|c s IH]; [reflexivity|]. simpl.
  rewrite lowerChar_space. now destruct (isWhiteSpace c).
Qed.

Lemma trimEnd_toLowerCase (s : string) :
  trimEnd (toLowerCase s) = toLowerCase (trimEnd s).
Proof.
  induction s as [|c s IH]; [reflexivity|]. simpl. rewrite IH.
  destruct (trimEnd s); simpl; [|reflexivity].
  rewrite lowerChar_space. now destruct (isWhiteSpace c).
Qed.

Lemma trim_toLowerCase (s : string) : trim (toLowerCase s) = toLowerCase (trim s).
Proof. unfold trim. now rewrite trimStart_toLowerCase, trimEnd_toLowerCase. Qed.

(** X9.  The query is matched without regard to its letter case and to
    white space around it: the query, the query in lower case and the trimmed
    query select and order the same sections. *)
Theorem visibleSections_query_normal (localeCompare : string -> string -> Z)
    (sectionStats : list Stat.t) (sectionScope : SectionScope)
    (query : string) (sortMode : SortMode) :
  visibleSections localeCompare sectionStats sectionScope (toLowerCase query) sortMode
  = visibleSections localeCompare sectionStats sectionScope query sortMode /\
  visibleSections localeCompare sectionStats sectionScope (trim query) sortMode
  = visibleSections localeCompare sectionStats sectionScope query sortMode.
Proof.
  unfold visibleSections.
  now rewrite trim_toLowerCase, toLowerCase_idem, trim_idem.
Qed.

(** ** The render of a section *)

Lemma filter_isGood_idem (rows : list ComputedRow.t) :
  filter isGood (filter isGood rows) = filter isGood rows.
Proof. apply list_filter_filter_l. auto. Qed.

Lemma filter_isGood_bad (rows : list ComputedRow.t) :
  filter isGood (filter (fun r => ~ isGood r) rows) = [].
Proof.
  induction rows as [|r rows IH]; [reflexivity|].
  rewrite (filter_cons (fun r => ~ isGood r)).
  destruct (decide (~ isGood r)) as [Hn|Hn]; [|exact IH].
  rewrite filter_cons. destruct (decide (isGood r)); [contradiction|exact IH].
Qed.

Lemma len_filter_bad (rows : list ComputedRow.t) :
  len (filter (fun r => ~ isGood r) rows) = len rows - len (filter isGood rows).
Proof.
  pose proof (filter_app_complement isGood rows) as Hp.
  apply Permutation_length in Hp. rewrite length_app in Hp.
  unfold len. lia.
Qed.

(** X10.  For an entry of [sectionStats], the rows shown under the effective
    filter are as many as the button of that filter announces: [rows.length]
    for "ALL", [good] for "GOOD", [bad] for "BAD".  The share of GOOD rows
    among the shown rows is the section's [pctGood] under "ALL", 0 under
    "BAD", and under "GOOD" it is 100 when a row is shown and 0 when none
    is. *)
Theorem sectionView_counts (globalRowFilter : RowFilter)
    (filters : gmap string RowFilter) (openMap : gmap string bool)
    (SECTIONS : list SectionDef.t) (cmp : gmap string (list ComputedRow.t))
    (x : Stat.t) :
  x ∈ sectionStats SECTIONS cmp -> len (Stat.rows x) < 2 ^ 53 ->
  let v := sectionView globalRowFilter filters openMap x in
  match effectiveFilter globalRowFilter (SectionView.localFilter v) with
  | F_ALL =>
      SectionView.shown v = Stat.rows x /\
      SectionView.shownGood v = Stat.good x /\
      SectionView.shownPctGood v = Stat.pctGood x
  | F_GOOD =>
      len (SectionView.shown v) = Stat.good x /\
      SectionView.shownGood v = Stat.good x /\
      SectionView.shownPctGood v = (if Stat.good x =? 0 then Fin 0 else Fin 100)
  | F_BAD =>
      len (SectionView.shown v) = Stat.bad x /\
      SectionView.shownGood v = 0 /\
      SectionView.shownPctGood v = Fin 0
  end.
Proof.
  intros Hx Hlen v. apply sectionStats_elem in Hx.
  assert (Hg : Stat.good x = len (filter isGood (Stat.rows x)))
    by (rewrite Hx at 1; reflexivity).
  assert (Hb : Stat.bad x = len (Stat.rows x) - len (filter isGood (Stat.rows x)))
    by (rewrite Hx at 1; reflexivity).
  assert (Hp : Stat.pctGood x
               = percentOf (len (filter isGood (Stat.rows x))) (len (Stat.rows x)))
    by (rewrite Hx at 1; reflexivity).
  unfold v, sectionView. simpl. unfold rowFilterApply.
  destruct (effectiveFilter globalRowFilter
              (default F_ALL (filters !! SectionDef.id (Stat.section x)))).
  - rewrite Hg, Hp. auto.
  - rewrite filter_isGood_idem, <- Hg. split; [reflexivity|]. split; [reflexivity|].
    destruct (Z.eqb_spec (Stat.good x) 0) as [E|E].
    + rewrite E. reflexivity.
    + apply percentOf_all.
      pose proof (len_filter_le isGood (Stat.rows x)). lia.
  - rewrite filter_isGood_bad, len_filter_bad, <- Hb.
    split; [reflexivity|]. split; [reflexivity|]. apply percentOf_zero.
Qed.

(** The section of the example under the filter "GOOD": one row is shown and
    the share of GOOD rows is 100. *)
Lemma sectionView_counts_witness :
  let v := sectionView F_ALL {[ "fold3bet" := F_GOOD ]} ∅
             (sectionStat fold3bet (sectionRows fold3bet raw3)) in
  len (SectionView.shown v) = 1 /\ SectionView.shownGood v = 1
  /\ SectionView.shownPctGood v = Fin 100.
Proof.
  assert (Hx : sectionStat fold3bet (sectionRows fold3bet raw3)
               ∈ sectionStats [fold3bet] (computed [fold3bet] raw3))
    by (vm_compute; constructor).
  exact (sectionView_counts F_ALL {[ "fold3bet" := F_GOOD ]} ∅ [fold3bet]
           (computed [fold3bet] raw3)
           (sectionStat fold3bet (sectionRows fold3bet raw3)) Hx eq_refl).
Defined.

(** ** The view state *)

Lemma fold_insert_lookup {V : Type} (v : V) (l : list SectionDef.t)
    (m : gmap string V) (k : string) :
  foldl (fun acc s => <[SectionDef.id s := v]> acc) m l !! k
  = if decide (k ∈ map SectionDef.id l) then Some v else m !! k.
Proof.
  revert m. induction l as [|s l IH]; intros m; simpl; [reflexivity|].
  rewrite IH. destruct (decide (k ∈ map SectionDef.id l)) as [Hin|Hout].
  - rewrite decide_True by now right. reflexivity.
  - rewrite lookup_insert. destruct (decide (SectionDef.id s = k)) as [E|E].
    + rewrite decide_True by (rewrite E; left). reflexivity.
    + rewrite decide_False; [reflexivity|].
      intros Hin. apply elem_of_cons in Hin as [->|Hin]; contradiction.
Qed.

(** X11.  At the start every section, in the catalog or not, reads the
    filter "ALL" and is closed, so with the global filter at "ALL" it shows all
    its rows.  After [setAllOpen(open)] every section of the catalog reads
    [open] and every other id reads closed. *)
Theorem view_state_initial (SECTIONS : list SectionDef.t) (x : Stat.t) (open : bool) :
  let v := sectionView F_ALL (initFilters SECTIONS) (initOpenMap SECTIONS) x in
  SectionView.localFilter v = F_ALL /\
  SectionView.shown v = Stat.rows x /\
  SectionView.isOpen v = false /\
  SectionView.isOpen (sectionView F_ALL (initFilters SECTIONS)
                        (setAllOpen SECTIONS open) x)
  = (if decide (SectionDef.id (Stat.section x) ∈ map SectionDef.id SECTIONS)
     then open else false).
Proof.
  unfold sectionView, initFilters, initOpenMap, setAllOpen. simpl.
  rewrite !fold_insert_lookup, !lookup_empty.
  destruct (decide (SectionDef.id (Stat.section x) ∈ map SectionDef.id SECTIONS));
    simpl; auto.
Qed.

(** X12.  Choosing a filter for a section id sets the filter of the sections
    with that id and leaves the view of every section with another id as it
    was; toggling a section does the same for the open flag. *)
Theorem view_state_update (globalRowFilter : RowFilter)
    (filters : gmap string RowFilter) (openMap : gmap string bool)
    (k : string) (f : RowFilter) (next : bool) (x : Stat.t) :
  (SectionDef.id (Stat.section x) = k ->
     SectionView.localFilter
       (sectionView globalRowFilter (setFilter k f filters) openMap x) = f /\
     SectionView.isOpen
       (sectionView globalRowFilter filters (setOpen k next openMap) x) = next) /\
  (SectionDef.id (Stat.section x) <> k ->
     sectionView globalRowFilter (setFilter k f filters) openMap x
     = sectionView globalRowFilter filters openMap x /\
     sectionView globalRowFilter filters (setOpen k next openMap) x
     = sectionView globalRowFilter filters openMap x).
Proof.
  unfold sectionView, setFilter, setOpen. split.
  - intros <-. simpl. now rewrite !lookup_insert_eq.
  - intros Hne. rewrite !lookup_insert_ne by congruence. auto.
Qed.

Lemma view_state_update_witness :
  SectionView.localFilter
    (sectionView F_ALL (setFilter "fold3bet" F_BAD ∅) ∅
       (sectionStat fold3bet [])) = F_BAD /\
  sectionView F_ALL (setFilter "fold3bet" F_BAD ∅) ∅ (sectionStat vpip [])
  = sectionView F_ALL ∅ ∅ (sectionStat vpip []).
Proof.
  split.
  - apply (proj1 (view_state_update F_ALL ∅ ∅ "fold3bet" F_BAD true
                    (sectionStat fold3bet []))). reflexivity.
  - apply (proj2 (view_state_update F_ALL ∅ ∅ "fold3bet" F_BAD true
                    (sectionStat vpip []))). discriminate.
Defined.

(** ** The message of an empty section *)

(** X13.  The table is rendered exactly when a row is shown.  Without raw
    rows every entry of [sectionStats] shows "Load a CSV to see results."
    under every filter; "No rows for this filter." is shown only when raw rows
    are loaded, and then also for a section that has no row at all, whatever
    its filter. *)
Theorem emptyMessage_cases (SECTIONS : list SectionDef.t) (rawRows : list Row)
    (globalRowFilter : RowFilter) (filters : gmap string RowFilter)
    (openMap : gmap string bool) (x : Stat.t) :
  let shown := SectionView.shown (sectionView globalRowFilter filters openMap x) in
  (emptyMessage rawRows shown = None <-> shown <> []) /\
  (emptyMessage rawRows shown = Some "No rows for this filter." <->
     shown = [] /\ rawRows <> []) /\
  (x ∈ sectionStats SECTIONS (computed SECTIONS rawRows) ->
     (rawRows = [] -> emptyMessage rawRows shown = Some "Load a CSV to see results.") /\
     (rawRows <> [] -> Stat.rows x = [] ->
        emptyMessage rawRows shown = Some "No rows for this filter.")).
Proof.
  intros shown. unfold emptyMessage.
  assert (Hnil : Stat.rows x = [] -> shown = []).
  { intros E. unfold shown, sectionView, rowFilterApply. simpl. rewrite E.
    now destruct (effectiveFilter _ _). }
  assert (Hempty : rawRows = [] ->
            x ∈ sectionStats SECTIONS (computed SECTIONS rawRows) -> Stat.rows x = []).
  { intros -> Hx. unfold sectionStats in Hx.
    apply list_elem_of_fmap in Hx as (s & -> & _). simpl.
    destruct (computed SECTIONS [] !! SectionDef.id s) as [rows|] eqn:E;
      [|reflexivity].
    apply computed_lookup_Some in E as (s' & _ & ->). reflexivity. }
  destruct (Z.eqb_spec (len shown) 0) as [Es|Es];
    destruct (Z.eqb_spec (len rawRows) 0) as [Er|Er];
    rewrite len_zero in Es; rewrite len_zero in Er.
  - split; [|split].
    + split; [discriminate | contradiction].
    + split; [discriminate | tauto].
    + intros Hx. split; [reflexivity | contradiction].
  - split; [|split].
    + split; [discriminate | contradiction].
    + split; [auto | reflexivity].
    + intros Hx. split; [contradiction | reflexivity].
  - split; [|split].
    + tauto.
    + split; [discriminate | tauto].
    + intros Hx. split; [|intros _ E; now apply Hnil in E].
      intros E. exfalso. apply Es, Hnil. now apply Hempty.
  - split; [|split].
    + tauto.
    + split; [discriminate | tauto].
    + intros Hx. split; [contradiction|]. intros _ E. now apply Hnil in E.
Qed.

Lemma emptyMessage_cases_witness :
  emptyMessage []
    (SectionView.shown (sectionView F_ALL ∅ ∅ (sectionStat fold3bet [])))
  = Some "Load a CSV to see results.".
Proof.
  apply (emptyMessage_cases [fold3bet] [] F_ALL ∅ ∅ (sectionStat fold3bet [])).
  - apply list_elem_of_here.
  - reflexivity.
Defined.

(** ** The text of a cell *)

Lemma trimStart_idem (s : string) : trimStart (trimStart s) = trimStart s.
Proof.
  destruct (trimStart_head s) as [->|(c & t & -> & Hc)]; [reflexivity|].
  now apply trimStart_nonspace.
Qed.

Lemma trim_trimStart (s : string) : trim (trimStart s) = trim s.
Proof. unfold trim. now rewrite trimStart_idem. Qed.

Lemma Number_trim (s : string) : Number (trim s) = Number s.
Proof. unfold Number. now rewrite trim_idem. Qed.

Lemma Number_trimStart (s : string) : Number (trimStart s) = Number s.
Proof. unfold Number. now rewrite trim_trimStart. Qed.

Lemma trimStart_app_percent (s : string) :
  trimStart (s ++ "%") = (trimStart s ++ "%")%string.
Proof.
  induction s as [|c s IH]; [reflexivity|]. simpl.
  now destruct (isWhiteSpace c).
Qed.

Lemma trimEnd_app_percent (s : string) : trimEnd (s ++ "%") = (s ++ "%")%string.
Proof.
  induction s as [|c s IH]; [reflexivity|]. simpl. rewrite IH.
  now destruct s.
Qed.

Lemma trim_app_percent (s : string) : trim (s ++ "%") = (trimStart s ++ "%")%string.
Proof. unfold trim. now rewrite trimStart_app_percent, trimEnd_app_percent. Qed.

Lemma removeFirst_absent (c : ascii) (s : string) :
  occurs c s = false -> removeFirst c s = s.
Proof.
  induction s as [|c' s IH]; [reflexivity|]. simpl.
  destruct (Ascii.eqb c c'); [discriminate|]. simpl. intros H. now rewrite IH.
Qed.

Lemma removeFirst_app (c : ascii) (s : string) :
  occurs c s = false -> removeFirst c (s ++ String c "") = s.
Proof.
  induction s as [|c' s IH]; simpl.
  - now rewrite Ascii.eqb_refl.
  - destruct (Ascii.eqb c c'); [discriminate|]. simpl. intros H. now rewrite IH.
Qed.

Lemma occurs_trimStart (c : ascii) (s : string) :
  occurs c s = false -> occurs c (trimStart s) = false.
Proof.
  induction s as [|c' s IH]; [reflexivity|]. simpl.
  destruct (isWhiteSpace c'); intros H; apply orb_false_iff in H as [H1 H2];
    [now apply IH|]. simpl. now rewrite H1, H2.
Qed.

Lemma occurs_trimEnd (c : ascii) (s : string) :
  occurs c s = false -> occurs c (trimEnd s) = false.
Proof.
  induction s as [|c' s IH]; [reflexivity|]. simpl.
  intros H. apply orb_false_iff in H as [H1 H2]. specialize (IH H2).
  destruct (trimEnd s); [destruct (isWhiteSpace c')|]; simpl in *;
    rewrite ?H1; auto.
Qed.

Lemma lowerChar_n (c : ascii) : lowerChar c = "n"%char -> c = "n"%char \/ c = "N"%char.
Proof.
  destruct c as [[] [] [] [] [] [] [] []]; vm_compute; intros H;
    try discriminate H; auto.
Qed.

Lemma lowerChar_a (c : ascii) : lowerChar c = "a"%char -> c = "a"%char \/ c = "A"%char.
Proof.
  destruct c as [[] [] [] [] [] [] [] []]; vm_compute; intros H;
    try discriminate H; auto.
Qed.

(** The texts that read "na" in lower case are not numbers. *)
Lemma na_not_number (t : string) :
  toLowerCase t = "na" -> isFinite (Number t) = false.
Proof.
  destruct t as [|c1 [|c2 [|c3 t]]]; simpl; try discriminate.
  intros [= H1 H2].
  apply lowerChar_n in H1 as [->| ->]; apply lowerChar_a in H2 as [->| ->];
    reflexivity.
Qed.

(** X14.  The extractor reads a cell without regard to white space around the
    text and to a '%' at its end: for a text [s] without '%', the cells [s] and
    [s%] have the same value or are both absent, unless [s] is blank, in which
    case [s] is absent while [s%] has the value 0. *)
Theorem parsePercent_percent_sign (s : string) :
  occurs "%" s = false ->
  parsePercent (Some (trim s)) = parsePercent (Some s) /\
  (trim s <> "" -> parsePercent (Some (s ++ "%")) = parsePercent (Some s)) /\
  (trim s = "" ->
     parsePercent (Some s) = None /\ parsePercent (Some (s ++ "%")) = Some (Fin 0)).
Proof.
  intros Hs.
  assert (Hlast : forall t : string, (t ++ "%")%string <> "" /\ (t ++ "%")%string <> "-"
            /\ toLowerCase (t ++ "%") <> "na").
  { intros t. destruct t as [|c1 [|c2 [|c3 t]]]; simpl; repeat split; discriminate. }
  assert (Hleft : parsePercent (Some (s ++ "%"))
                  = if isFinite (Number s) then Some (Number s) else None).
  { unfold parsePercent. rewrite trim_app_percent.
    destruct (Hlast (trimStart s)) as (H1 & H2 & H3).
    apply String.eqb_neq in H1, H2, H3. rewrite H1, H2, H3. simpl.
    rewrite removeFirst_app by now apply occurs_trimStart.
    now rewrite Number_trimStart. }
  split; [|split].
  - unfold parsePercent. now rewrite trim_idem.
  - intros Hne. rewrite Hleft. unfold parsePercent.
    apply String.eqb_neq in Hne. rewrite Hne. simpl.
    destruct (String.eqb_spec (trim s) "-") as [E|E]; simpl.
    { rewrite <- Number_trim, E. reflexivity. }
    destruct (String.eqb_spec (toLowerCase (trim s)) "na") as [E2|E2].
    { rewrite <- Number_trim, (na_not_number _ E2). reflexivity. }
    rewrite removeFirst_absent by now apply occurs_trimEnd, occurs_trimStart.
    now rewrite Number_trim.
  - intros E. split.
    + unfold parsePercent. now rewrite E.
    + rewrite Hleft. unfold Number. now rewrite E.
Qed.

(** " 42.5 " and "42.5%" have the value 42.5 of "42.5". *)
Lemma parsePercent_percent_sign_witness :
  parsePercent (Some "42.5%") = parsePercent (Some "42.5").
Proof.
  apply (parsePercent_percent_sign "42.5"); [reflexivity | discriminate].
Defined.

(** ** Texts with more than one percent sign *)

Lemma digitValue_percent (radix : Z) (c : ascii) (v : Z) :
  digitValue radix c = Some v -> Ascii.eqb "%" c = false.
Proof.
  destruct (Ascii.eqb_spec "%"%char c) as [<-|]; [|reflexivity].
  unfold digitValue. simpl. rewrite Z.ltb_irrefl. discriminate.
Qed.

Lemma occurs_cons (c c' : ascii) (s : string) :
  occurs c (String c' s) = Ascii.eqb c c' || occurs c s.
Proof. reflexivity. Qed.

Lemma digits_occurs (radix : Z) (s : string) (acc count v n : Z) (rest : string) :
  digits radix acc count s = (v, n, rest) -> occurs "%" s = occurs "%" rest.
Proof.
  revert acc count. induction s as [|c s IH]; intros acc count; cbn [digits].
  - now intros [= _ _ <-].
  - destruct (digitValue radix c) as [d|] eqn:E.
    + intros H. rewrite occurs_cons, (digitValue_percent _ _ _ E).
      exact (IH _ _ H).
    + now intros [= _ _ <-].
Qed.

Lemma sign_body_occurs (s : string) :
  occurs "%" (snd (match s with
                   | String "-" t => (true, t)
                   | String "+" t => (false, t)
                   | _ => (false, s)
                   end))
  = occurs "%" s.
Proof.
  destruct s as [|c t]; [reflexivity|].
  destruct c as [[] [] [] [] [] [] [] []]; reflexivity.
Qed.

Lemma exponentPart_occurs (s : string) (e : Z) :
  exponentPart s = Some e -> occurs "%" s = false.
Proof.
  destruct s as [|c s]; [reflexivity|]. unfold exponentPart.
  destruct ((code c =? 101) || (code c =? 69)) eqn:Ec; [|discriminate].
  assert (Hc : Ascii.eqb "%" c = false).
  { destruct (Ascii.eqb_spec "%"%char c) as [<-|]; [discriminate|reflexivity]. }
  rewrite occurs_cons, Hc, orb_false_l.
  pose proof (sign_body_occurs s) as Hb.
  destruct (match s with
            | String "-" t => (true, t)
            | String "+" t => (false, t)
            | _ => (false, s)
            end) as [negative body].
  cbn [snd] in Hb. rewrite <- Hb.
  destruct (digits 10 0 0 body) as [[v n] rest] eqn:Ed.
  apply digits_occurs in Ed. rewrite Ed.
  destruct rest; [reflexivity|discriminate].
Qed.

Lemma unsignedDecimal_occurs (s : string) (q : Q) :
  unsignedDecimal s = Some q -> occurs "%" s = false.
Proof.
  unfold unsignedDecimal.
  destruct (digits 10 0 0 s) as [[ip icount] r1] eqn:E1.
  apply digits_occurs in E1. rewrite E1.
  destruct r1 as [|c t].
  - destruct (0 <? icount + 0); [|discriminate]. reflexivity.
  - destruct (Ascii.eqb_spec c ".") as [->|Hne].
    + destruct (digits 10 ip 0 t) as [[m fcount] r2] eqn:E2.
      apply digits_occurs in E2. rewrite occurs_cons.
      change (Ascii.eqb "%" ".") with false. rewrite orb_false_l, E2.
      destruct (0 <? icount + fcount); [|discriminate].
      destruct (exponentPart r2) eqn:Ee; [|discriminate].
      intros _. exact (exponentPart_occurs _ _ Ee).
    + assert (Hm : match String c t with
                   | String "." t0 => digits 10 ip 0 t0
                   | _ => (ip, 0, String c t)
                   end = (ip, 0, String c t)).
      { destruct c as [[] [] [] [] [] [] [] []]; try reflexivity.
        now contradiction Hne. }
      rewrite Hm.
      destruct (0 <? icount + 0); [|discriminate].
      destruct (exponentPart (String c t)) eqn:Ee; [|discriminate].
      intros _. exact (exponentPart_occurs _ _ Ee).
Qed.

Lemma strDecimalLiteral_occurs (s : string) (n : number) :
  strDecimalLiteral s = Some n -> isFinite n = true -> occurs "%" s = false.
Proof.
  unfold strDecimalLiteral.
  pose proof (sign_body_occurs s) as Hb.
  destruct (match s with
            | String "-" t => (true, t)
            | String "+" t => (false, t)
            | _ => (false, s)
            end) as [negative body].
  cbn [snd] in Hb. rewrite <- Hb.
  destruct (String.eqb body "Infinity").
  - intros [= <-]. destruct negative; discriminate.
  - destruct (unsignedDecimal body) eqn:E; [|discriminate].
    intros _ _. exact (unsignedDecimal_occurs _ _ E).
Qed.

Lemma digitValue_zero (c : ascii) : digitValue 0 c = None.
Proof.
  unfold digitValue. set (k := code c).
  destruct ((48 <=? k) && (k <=? 57)) eqn:E1.
  { apply andb_true_iff in E1 as [H1 _]. apply Z.leb_le in H1.
    destruct (k - 48 <? 0) eqn:E; [apply Z.ltb_lt in E; lia | reflexivity]. }
  destruct ((97 <=? k) && (k <=? 102)) eqn:E2.
  { apply andb_true_iff in E2 as [H1 _]. apply Z.leb_le in H1.
    destruct (k - 87 <? 0) eqn:E; [apply Z.ltb_lt in E; lia | reflexivity]. }
  destruct ((65 <=? k) && (k <=? 70)) eqn:E3.
  { apply andb_true_iff in E3 as [H1 _]. apply Z.leb_le in H1.
    destruct (k - 55 <? 0) eqn:E; [apply Z.ltb_lt in E; lia | reflexivity]. }
  reflexivity.
Qed.

Lemma nonDecimalIntegerLiteral_occurs (s : string) (n : number) :
  nonDecimalIntegerLiteral s = Some n -> occurs "%" s = false.
Proof.
  unfold nonDecimalIntegerLiteral.
  destruct s as [|c0 [|c body]];
    try (destruct c0 as [[] [] [] [] [] [] [] []]; discriminate).
  { discriminate. }
  destruct (Ascii.eqb_spec "%"%char c) as [<-|Hc].
  - destruct c0 as [[] [] [] [] [] [] [] []]; try discriminate.
    cbn. destruct body as [|c b]; [discriminate|].
    cbn [digits]. rewrite digitValue_zero. discriminate.
  - assert (Hc' : Ascii.eqb "%" c = false) by now apply Ascii.eqb_neq.
    destruct c0 as [[] [] [] [] [] [] [] []]; try discriminate.
    match goal with
    | |- context [digits ?r 0 0 body] =>
        destruct (digits r 0 0 body) as [[v k] rest] eqn:Ed
    end.
    destruct rest; [|discriminate]. intros _.
    apply digits_occurs in Ed.
    rewrite !occurs_cons, Hc', Ed. reflexivity.
Qed.

Lemma occurs_trim (s : string) : occurs "%" (trim s) = occurs "%" s.
Proof.
  unfold trim.
  assert (H1 : forall t, occurs "%" (trimStart t) = occurs "%" t).
  { induction t as [|c t IH]; [reflexivity|]. cbn [trimStart].
    destruct (isWhiteSpace c) eqn:E; [|reflexivity].
    rewrite occurs_cons, IH.
    destruct (Ascii.eqb_spec "%"%char c) as [<-|]; [discriminate|reflexivity]. }
  assert (H2 : forall t, occurs "%" (trimEnd t) = occurs "%" t).
  { induction t as [|c t IH]; [reflexivity|]. cbn [trimEnd].
    rewrite occurs_cons, <- IH.
    destruct (trimEnd t) as [|c' t'].
    - destruct (isWhiteSpace c) eqn:E.
      + destruct (Ascii.eqb_spec "%"%char c) as [<-|]; [discriminate|reflexivity].
      + rewrite occurs_cons. reflexivity.
    - rewrite (occurs_cons _ c). reflexivity. }
  now rewrite H2, H1.
Qed.

(** A text that [Number] converts to a finite number holds no '%'. *)
Lemma Number_finite_occurs (s : string) :
  isFinite (Number s) = true -> occurs "%" s = false.
Proof.
  unfold Number. rewrite <- (occurs_trim s).
  destruct (String.eqb_spec (trim s) "") as [->|Hne]; [reflexivity|].
  destruct (strDecimalLiteral (trim s)) as [n|] eqn:E1.
  - intros Hf. exact (strDecimalLiteral_occurs _ _ E1 Hf).
  - destruct (nonDecimalIntegerLiteral (trim s)) as [n|] eqn:E2; [|discriminate].
    intros _. exact (nonDecimalIntegerLiteral_occurs _ _ E2).
Qed.

(** X15.  A cell whose text still holds a '%' after its first one is
    removed, such as "5%%" or "10%-20%", is absent. *)
Theorem parsePercent_two_percent (v : string) :
  occurs "%" (removeFirst "%" (trim v)) = true -> parsePercent (Some v) = None.
Proof.
  intros Hocc. unfold parsePercent.
  destruct (_ || _); [reflexivity|].
  destruct (isFinite (Number (removeFirst "%" (trim v)))) eqn:E; [|reflexivity].
  apply Number_finite_occurs in E. congruence.
Qed.

Lemma parsePercent_two_percent_witness :
  parsePercent (Some "10%-20%") = None.
Proof. apply (parsePercent_two_percent "10%-20%"). reflexivity. Defined.

(** ** The classifier is monotone *)

(** X16.  The outcome never falls when the value rises: for finite values
    [v <= w] and any range, the outcome of [w] is that of [v] or one further
    along LOW, GOOD, HIGH; in particular a value above a HIGH value is HIGH
    and a value below a LOW value is LOW. *)
Theorem classify_monotone (v w : Q) (r : Range.t) :
  (v <= w)%Q -> rank (classify (Fin v) r) <= rank (classify (Fin w) r).
Proof.
  intros Hvw. unfold classify, num_ge.
  assert (Hle : (Fin v <= Fin w)%num) by exact Hvw.
  destruct (num_le (Fin v) (Range.min r)) eqn:E1.
  { destruct (num_le (Fin w) (Range.min r)); [simpl; lia|].
    destruct (num_le (Range.max r) (Fin w)); simpl; lia. }
  assert (E2 : num_le (Fin w) (Range.min r) = false).
  { apply num_le_false_iff. intros C. apply num_le_false_iff in E1. apply E1.
    exact (le_trans _ _ _ Hle C). }
  rewrite E2.
  destruct (num_le (Range.max r) (Fin v)) eqn:E3.
  - assert (E4 : num_le (Range.max r) (Fin w) = true).
    { apply num_le_iff. apply num_le_iff in E3. exact (le_trans _ _ _ E3 Hle). }
    rewrite E4. simpl. lia.
  - destruct (num_le (Range.max r) (Fin w)); simpl; lia.
Qed.

Lemma classify_monotone_witness :
  rank (classify (Fin 45) range_20_40) <= rank (classify (Fin 50) range_20_40).
Proof. apply (classify_monotone 45 50 range_20_40). discriminate. Defined.

(** ** Rows with the same position *)

Lemma append_inj_l (p s t : string) : (p ++ s = p ++ t)%string -> s = t.
Proof. induction p as [|c p IH]; simpl; [auto|]. intros [= H]. auto. Qed.

(** X17.  Two rows of a section get the same React key exactly when they
    have the same position: the keys of the rows shown for a section are
    pairwise distinct if and only if their positions are, so two raw rows
    with one position that are both kept share a key. *)
Theorem rowKey_distinct (section : SectionDef.t) (shown : list ComputedRow.t) :
  (forall r1 r2, rowKey section r1 = rowKey section r2 <->
                 ComputedRow.position r1 = ComputedRow.position r2) /\
  (NoDup (map (rowKey section) shown) <-> NoDup (map ComputedRow.position shown)).
Proof.
  assert (Hkey : forall r1 r2, rowKey section r1 = rowKey section r2 <->
                   ComputedRow.position r1 = ComputedRow.position r2).
  { intros r1 r2. unfold rowKey. split; [|now intros ->].
    intros H. apply append_inj_l in H. now apply (append_inj_l "-") in H. }
  split; [exact Hkey|].
  induction shown as [|r l IH]; simpl; [split; constructor|].
  rewrite !NoDup_cons, IH.
  assert (Hin : rowKey section r ∈ map (rowKey section) l
                <-> ComputedRow.position r ∈ map ComputedRow.position l).
  { rewrite !list_elem_of_fmap. split; intros (y & Hy & Hl); exists y;
      (split; [|exact Hl]); now apply Hkey. }
  now rewrite Hin.
Qed.

(** ** The rows of two files *)

(** X18.  Classification goes row by row: for raw rows followed by further
    raw rows, every section's sequence is its sequence for the first rows
    followed by its sequence for the further rows, and its GOOD and
    out-of-range counts are the sums of the two counts. *)
Theorem sectionRows_app (s : SectionDef.t) (rows1 rows2 : list Row) :
  sectionRows s (rows1 ++ rows2) = (sectionRows s rows1 ++ sectionRows s rows2)%list /\
  Stat.good (sectionStat s (sectionRows s (rows1 ++ rows2)))
  = Stat.good (sectionStat s (sectionRows s rows1))
    + Stat.good (sectionStat s (sectionRows s rows2)) /\
  Stat.bad (sectionStat s (sectionRows s (rows1 ++ rows2)))
  = Stat.bad (sectionStat s (sectionRows s rows1))
    + Stat.bad (sectionStat s (sectionRows s rows2)).
Proof.
  assert (E : sectionRows s (rows1 ++ rows2)
              = (sectionRows s rows1 ++ sectionRows s rows2)%list).
  { rewrite !sectionRows_omap. apply omap_app. }
  split; [exact E|]. rewrite E. simpl.
  rewrite filter_app. unfold len. rewrite !length_app. lia.
Qed.

(** ** The filters split the rows *)

(** X19.  Each row of a section is shown under exactly one of the filters
    "GOOD" and "BAD": the rows shown under the two together are the rows of
    the section, none twice; and filtering the shown rows again with the same
    filter changes nothing. *)
Theorem rowFilterApply_partition (rows : list ComputedRow.t) (f : RowFilter) :
  (rowFilterApply F_ALL rows F_GOOD ++ rowFilterApply F_ALL rows F_BAD)%list ≡ₚ rows /\
  (forall r, ~ (r ∈ rowFilterApply F_ALL rows F_GOOD
                /\ r ∈ rowFilterApply F_ALL rows F_BAD)) /\
  rowFilterApply F_ALL (rowFilterApply F_ALL rows f) f = rowFilterApply F_ALL rows f.
Proof.
  unfold rowFilterApply; simpl. split; [|split].
  - apply filter_app_complement.
  - intros r [H1 H2]. apply list_elem_of_filter in H1 as [H1 _].
    apply list_elem_of_filter in H2 as [H2 _]. contradiction.
  - destruct f; simpl; [reflexivity| |]; apply list_filter_filter_l; auto.
Qed.

(** ** The order of the catalog *)

Lemma computed_lookup_absent (SECTIONS : list SectionDef.t) (rawRows : list Row)
    (k : string) :
  k ∉ map SectionDef.id SECTIONS -> computed SECTIONS rawRows !! k = None.
Proof.
  intros Hk. unfold computed. rewrite computed_lookup_other by assumption.
  apply lookup_empty.
Qed.

(** X20.  With distinct section ids, [computed] does not depend on the order
    of the catalog: it has one entry per section id, the rows of that section,
    and no entry for any other key. *)
Theorem computed_Permutation (SECTIONS SECTIONS' : list SectionDef.t)
    (rawRows : list Row) :
  NoDup (map SectionDef.id SECTIONS) -> SECTIONS ≡ₚ SECTIONS' ->
  computed SECTIONS rawRows = computed SECTIONS' rawRows /\
  (forall k, is_Some (computed SECTIONS rawRows !! k)
             <-> k ∈ map SectionDef.id SECTIONS).
Proof.
  intros Hnd Hp.
  assert (Hnd' : NoDup (map SectionDef.id SECTIONS')).
  { rewrite <- Hp. exact Hnd. }
  split.
  - apply map_eq. intros k.
    destruct (decide (k ∈ map SectionDef.id SECTIONS)) as [Hin|Hout].
    + apply list_elem_of_fmap in Hin as (s & -> & Hs).
      rewrite !computed_lookup; try assumption; [reflexivity|].
      now rewrite <- Hp.
    + rewrite !computed_lookup_absent; [reflexivity| |assumption].
      now rewrite <- Hp.
  - intros k. split.
    + intros [rows Hk].
      destruct (decide (k ∈ map SectionDef.id SECTIONS)) as [Hin|Hout];
        [exact Hin|].
      rewrite computed_lookup_absent in Hk by assumption. discriminate.
    + intros Hin. apply list_elem_of_fmap in Hin as (s & -> & Hs).
      now apply computed_is_Some.
Qed.

Lemma computed_Permutation_witness :
  computed [fold3bet; vpip] raw3 = computed [vpip; fold3bet] raw3.
Proof.
  apply (computed_Permutation [fold3bet; vpip] [vpip; fold3bet] raw3).
  - compute_done.
  - apply Permutation_swap.
Defined.
